(** * Twitch MCP server: chat log, moderation-target resolution and the
      autonomous action executor

    A shallow embedding of the server module ([createStatelessServer]): the
    in-memory chat log, the target resolver, the timeout-duration heuristic,
    the JSON helper, the Twitch API wrapper, the [timeoutUser] / [banUser]
    tools and the executor handed to the autonomous monitor.

    Conventions of the embedding.
    - A JavaScript string is a [string]: a sequence of code units, each below
      U+0100.  Case mapping, white space and line terminators are the
      ECMAScript ones restricted to that range.
    - A JavaScript number is a safe integer, a [Z] of magnitude at most
      2^53 - 1, the range in which numbers are exact and print in plain
      decimal; fractions, NaN, the infinities and larger magnitudes (which
      print rounded, or in exponent form from 1e21 on) are outside the
      model.  A BigInt is any integer.
    - A value is data: undefined, null, booleans, numbers, BigInts, strings,
      arrays and plain objects.  Objects that bring code of their own are
      modelled only where the code takes an argument of type [any] and
      serializes it, in [safeJsonStringify].
    - [async] functions run to completion in sequence: every [await] is a
      call to an external collaborator (IRC client, [fetch]) whose answer is
      read from an environment, and chat messages that arrive while a call
      is awaited are not interleaved.  Console output is not modelled. *)

From Stdlib Require Import ZArith Ascii String DecimalString.
From stdpp Require Import base tactics option list sorting strings gmap.

Local Open Scope Z_scope.

(** ** JavaScript strings *)

Module JsString.

Definition code (c : ascii) : N := N_of_ascii c.

Definition LF : string := String "010"%char EmptyString.
Definition dquote : ascii := "034"%char.

(** [String.prototype.toLowerCase] on U+0000..U+00FF: A-Z, and the Latin-1
    capitals U+00C0..U+00DE except the multiplication sign U+00D7. *)
Definition toLowerCaseChar (c : ascii) : ascii :=
  let n := code c in
  if ((65 <=? n) && (n <=? 90) ||
      (192 <=? n) && (n <=? 222) && negb (n =? 215))%N
  then ascii_of_N (n + 32) else c.

Fixpoint toLowerCase (s : string) : string :=
  match s with
  | EmptyString => EmptyString
  | String c t => String (toLowerCaseChar c) (toLowerCase t)
  end.

(** White space and line terminators ([\s] and [trim]). *)
Definition isWhiteSpace (c : ascii) : bool :=
  let n := code c in
  ((9 <=? n) && (n <=? 13) || (n =? 32) || (n =? 160))%N.

(** Line terminators: the characters [.] does not match. *)
Definition isLineTerminator (c : ascii) : bool :=
  let n := code c in ((n =? 10) || (n =? 13))%N.

(** The class [[a-zA-Z0-9_]]. *)
Definition isWordChar (c : ascii) : bool :=
  let n := code c in
  ((97 <=? n) && (n <=? 122) || (65 <=? n) && (n <=? 90) ||
   (48 <=? n) && (n <=? 57) || (n =? 95))%N.

Fixpoint startsWith (p s : string) : bool :=
  match p, s with
  | EmptyString, _ => true
  | String a p', String b s' => if Ascii.eqb a b then startsWith p' s' else false
  | String _ _, EmptyString => false
  end.

(** [hay.includes(needle)] *)
Fixpoint includes (hay needle : string) : bool :=
  startsWith needle hay ||
  match hay with
  | EmptyString => false
  | String _ t => includes t needle
  end.

Fixpoint dropN (n : nat) (s : string) : string :=
  match n, s with
  | O, _ => s
  | S n', String _ t => dropN n' t
  | S _, EmptyString => EmptyString
  end.


Fixpoint trimStart (s : string) : string :=
  match s with
  | String c t => if isWhiteSpace c then trimStart t else s
  | EmptyString => EmptyString
  end.

Fixpoint trimEnd (s : string) : string :=
  match s with
  | EmptyString => EmptyString
  | String c t =>
      match trimEnd t with
      | EmptyString => if isWhiteSpace c then EmptyString else String c EmptyString
      | t' => String c t'
      end
  end.

Definition trim (s : string) : string := trimEnd (trimStart s).

Fixpoint allChars (p : ascii -> bool) (s : string) : bool :=
  match s with
  | EmptyString => true
  | String c t => p c && allChars p t
  end.

Definition isEmpty (s : string) : bool :=
  match s with EmptyString => true | _ => false end.

(** [parts.join(sep)] *)
Fixpoint join (sep : string) (parts : list string) : string :=
  match parts with
  | [] => EmptyString
  | [p] => p
  | p :: rest => p +:+ sep +:+ join sep rest
  end.

(** [s.split(sep)] for a one-character separator. *)
Fixpoint splitChar (sep : ascii) (s : string) : list string :=
  match s with
  | EmptyString => [EmptyString]
  | String c t =>
      if Ascii.eqb c sep then EmptyString :: splitChar sep t
      else match splitChar sep t with
           | w :: ws => String c w :: ws
           | [] => [String c EmptyString]
           end
  end.

(** Decimal rendering of an integer, as [String(n)] gives it for a BigInt
    and for a number in the safe range. *)
Definition ofZ (n : Z) : string := NilZero.string_of_int (Z.to_int n).

Definition hexDigit (upper : bool) (n : N) : ascii :=
  if (n <? 10)%N then ascii_of_N (48 + n)
  else ascii_of_N ((if upper then 55 else 87) + n).

Definition isUriUnreserved (c : ascii) : bool :=
  let n := code c in
  ((97 <=? n) && (n <=? 122) || (65 <=? n) && (n <=? 90) ||
   (48 <=? n) && (n <=? 57) ||
   (n =? 45) || (n =? 95) || (n =? 46) || (n =? 33) || (n =? 126) ||
   (n =? 42) || (n =? 39) || (n =? 40) || (n =? 41))%N.

Definition percent (b : N) : string :=
  String "%"%char (String (hexDigit true (b / 16))
                     (String (hexDigit true (b mod 16)) EmptyString)).

(** [encodeURIComponent]: unreserved characters are kept, every other
    code unit is written as the percent-escaped bytes of its UTF-8 form. *)
Fixpoint encodeURIComponent (s : string) : string :=
  match s with
  | EmptyString => EmptyString
  | String c t =>
      let n := code c in
      (if isUriUnreserved c then String c EmptyString
       else if (n <? 128)%N then percent n
       else percent (192 + n / 64) +:+ percent (128 + n mod 64))
      +:+ encodeURIComponent t
  end.

End JsString.

Import JsString.

(** ** The chat log *)

Record ChatMessage := mkChatMessage {
  username : string;
  content : string;
  timestamp : Z
}.

Definition MAX_MESSAGES : nat := 100.

(** [Array.prototype.shift]: drop the first element (nothing on an empty
    array). *)
Definition shift {A} (l : list A) : list A := drop 1 l.

(** [addChatMessage(username, content)]; [now] is the reading of
    [new Date()] taken by the call. *)
Definition addChatMessage (now : Z) (user text : string)
    (recentMessages : list ChatMessage) : list ChatMessage :=
  let message := mkChatMessage user text now in
  let recentMessages := recentMessages ++ [message] in
  if (MAX_MESSAGES <? length recentMessages)%nat
  then shift recentMessages else recentMessages.

(** [getRecentChatLog(n)]: [recentMessages.slice(-n)] formatted.  For
    [n = 0] the slice starts at index [-0 = 0] and keeps everything. *)
Definition sliceLast {A} (n : nat) (l : list A) : list A :=
  match n with
  | O => l
  | _ => drop (length l - n) l
  end.

Definition formatMessage (m : ChatMessage) : string :=
  username m +:+ ": " +:+ content m.

Definition getRecentChatLog (n : nat) (recentMessages : list ChatMessage)
    : list string :=
  formatMessage <$> sliceLast n recentMessages.

(** ** Timeout duration heuristic *)

Definition guessTimeoutDuration (reason : string) : Z :=
  let lowerReason := toLowerCase reason in
  if includes lowerReason "spam" || includes lowerReason "caps"
     || includes lowerReason "emote" then 300
  else if includes lowerReason "toxic" || includes lowerReason "rude"
     || includes lowerReason "mean" then 1800
  else if includes lowerReason "severe" || includes lowerReason "serious"
  then 3600
  else 600.

(** ** JavaScript values and completions *)

(** The values that flow through [parameters], API responses and thrown
    errors.  Objects list their own enumerable properties in property
    order. *)
#[warnings="-register-all"]
Inductive JSValue :=
| JUndefined
| JNull
| JBool (b : bool)
| JNum (n : Z)
| JBigInt (n : Z)
| JStr (s : string)
| JArr (items : list JSValue)
| JObj (fields : list (string * JSValue)).

(** A call either returns or throws a value. *)
Inductive Outcome (A : Type) :=
| Returned (a : A)
| Threw (e : JSValue).
Arguments Returned {A} a.
Arguments Threw {A} e.

#[global] Instance Outcome_ret : MRet Outcome := λ A a, Returned a.
#[global] Instance Outcome_bind : MBind Outcome := λ A B f o,
  match o with
  | Returned a => f a
  | Threw e => Threw e
  end.

(** An [Error] instance: only its [name] and [message] are observable
    here.  The message texts of engine-raised errors are V8's. *)
Definition mkError (name message : string) : JSValue :=
  JObj [("name", JStr name); ("message", JStr message)].
Definition typeError (message : string) : JSValue := mkError "TypeError" message.

Definition truthy (v : JSValue) : bool :=
  match v with
  | JUndefined | JNull => false
  | JBool b => b
  | JNum n | JBigInt n => negb (n =? 0)
  | JStr s => negb (isEmpty s)
  | JArr _ | JObj _ => true
  end.

(** [a || b] *)
Definition jsOr (a b : JSValue) : JSValue := if truthy a then a else b.

Definition isNullish (v : JSValue) : bool :=
  match v with JUndefined | JNull => true | _ => false end.

Fixpoint assocLookup {A} (k : string) (l : list (string * A)) : option A :=
  match l with
  | [] => None
  | (k', v) :: rest => if String.eqb k' k then Some v else assocLookup k rest
  end.

(** [v.k] for a property name [k] that is not an array index and not
    inherited from a built-in prototype ([error], [message], [data], [id],
    [length]). *)
Definition getProp (v : JSValue) (k : string) : Outcome JSValue :=
  match v with
  | JUndefined =>
      Threw (typeError ("Cannot read properties of undefined (reading '" +:+ k +:+ "')"))
  | JNull =>
      Threw (typeError ("Cannot read properties of null (reading '" +:+ k +:+ "')"))
  | JObj fields => Returned (default JUndefined (assocLookup k fields))
  | JArr items =>
      Returned (if String.eqb k "length" then JNum (Z.of_nat (length items))
                else JUndefined)
  | JStr s =>
      Returned (if String.eqb k "length" then JNum (Z.of_nat (String.length s))
                else JUndefined)
  | JBool _ | JNum _ | JBigInt _ => Returned JUndefined
  end.

(** [v[i]] for an array index [i]. *)
Definition getIndex (v : JSValue) (i : nat) : Outcome JSValue :=
  match v with
  | JUndefined =>
      Threw (typeError ("Cannot read properties of undefined (reading '" +:+ ofZ (Z.of_nat i) +:+ "')"))
  | JNull =>
      Threw (typeError ("Cannot read properties of null (reading '" +:+ ofZ (Z.of_nat i) +:+ "')"))
  | JArr items => Returned (default JUndefined (items !! i))
  | JObj fields => Returned (default JUndefined (assocLookup (ofZ (Z.of_nat i)) fields))
  | JStr s =>
      Returned (match dropN i s with
                | String c _ => JStr (String c EmptyString)
                | EmptyString => JUndefined
                end)
  | JBool _ | JNum _ | JBigInt _ => Returned JUndefined
  end.

(** [v?.k] and [v?.[i]] *)
Definition getPropOpt (v : JSValue) (k : string) : Outcome JSValue :=
  if isNullish v then Returned JUndefined else getProp v k.
Definition getIndexOpt (v : JSValue) (i : nat) : Outcome JSValue :=
  if isNullish v then Returned JUndefined else getIndex v i.

(** String conversion, as a template literal performs it. *)
Fixpoint toJsString (v : JSValue) : string :=
  match v with
  | JUndefined => "undefined"
  | JNull => "null"
  | JBool b => if b then "true" else "false"
  | JNum n | JBigInt n => ofZ n
  | JStr s => s
  | JArr items =>
      join "," (List.map (λ x, if isNullish x then EmptyString else toJsString x) items)
  | JObj _ => "[object Object]"
  end.

(** ** [JSON.stringify] *)

Definition hex2 (n : N) : string :=
  String (hexDigit false (n / 16)) (String (hexDigit false (n mod 16)) EmptyString).

Definition quoteChar (c : ascii) : string :=
  let n := code c in
  if (n =? 8)%N then "\b"
  else if (n =? 9)%N then "\t"
  else if (n =? 10)%N then "\n"
  else if (n =? 12)%N then "\f"
  else if (n =? 13)%N then "\r"
  else if (n =? 34)%N then String "\"%char (String dquote EmptyString)
  else if (n =? 92)%N then "\\"
  else if (n <? 32)%N then "\u00" +:+ hex2 n
  else String c EmptyString.

Fixpoint quoteChars (s : string) : string :=
  match s with
  | EmptyString => EmptyString
  | String c t => quoteChar c +:+ quoteChars t
  end.

Definition quoteJSON (s : string) : string :=
  String dquote (quoteChars s +:+ String dquote EmptyString).

Inductive Serialized :=
| SText (s : string)
| SUndefined
| SThrows (e : JSValue).

Definition wrapJSON (opening closing gap indent inner : string)
    (partial : list string) : string :=
  match partial with
  | [] => opening +:+ closing
  | _ =>
      if isEmpty gap then opening +:+ join "," partial +:+ closing
      else opening +:+ LF +:+ inner +:+ join ("," +:+ LF +:+ inner) partial
           +:+ LF +:+ indent +:+ closing
  end.

(** [SerializeJSONProperty] on data, with indentation unit [gap] at nesting
    [indent].  In an array an unserializable element is written [null]; in
    an object such a property is left out.  Data has no [toJSON] method, no
    getter and no cycle, so the one value thrown here is the TypeError for
    a BigInt; what else a serialization can throw enters with [AnyValue]
    below. *)
Fixpoint serialize (gap indent : string) (v : JSValue) : Serialized :=
  match v with
  | JUndefined => SUndefined
  | JNull => SText "null"
  | JBool b => SText (if b then "true" else "false")
  | JNum n => SText (ofZ n)
  | JBigInt _ => SThrows (typeError "Do not know how to serialize a BigInt")
  | JStr s => SText (quoteJSON s)
  | JArr items =>
      let inner := indent +:+ gap in
      (fix elements (l : list JSValue) (partial : list string) : Serialized :=
         match l with
         | [] => SText (wrapJSON "[" "]" gap indent inner (rev partial))
         | x :: l' =>
             match serialize gap inner x with
             | SText s => elements l' (s :: partial)
             | SUndefined => elements l' ("null" :: partial)
             | SThrows e => SThrows e
             end
         end) items []
  | JObj fields =>
      let inner := indent +:+ gap in
      (fix members (l : list (string * JSValue)) (partial : list string) : Serialized :=
         match l with
         | [] => SText (wrapJSON "{" "}" gap indent inner (rev partial))
         | (k, x) :: l' =>
             match serialize gap inner x with
             | SText s =>
                 members l' ((quoteJSON k +:+ ":" +:+
                              (if isEmpty gap then EmptyString else " ") +:+ s)
                             :: partial)
             | SUndefined => members l' partial
             | SThrows e => SThrows e
             end
         end) fields []
  end.

(** [JSON.stringify(obj, null, 2)] and [JSON.stringify(obj)] *)
Definition JSON_stringify_indent2 (obj : JSValue) : Serialized :=
  serialize "  " EmptyString obj.
Definition JSON_stringify (obj : JSValue) : Serialized :=
  serialize EmptyString EmptyString obj.





(** ** Moderation-target resolution *)

(** The keyword table.  The lookup [DESCRIPTOR_KEYWORDS[key]] goes through
    the prototype chain of an object literal: for the two lower-case names
    that [Object.prototype] answers, the value found is truthy and not
    iterable. *)
Inductive KeywordSource :=
| Keywords (keywords : list string)
| NotIterable.

Definition DESCRIPTOR_KEYWORDS (key : string) : option KeywordSource :=
  if String.eqb key "toxic" then
    Some (Keywords ["idiot"; "stupid"; "hate"; "kill"; "dumb"; "trash"; "noob";
                    "loser"; "shut up"; "annoying"; "toxic"; "rude"; "mean";
                    "sucks"; "bad"; "worst"; "report"; "ban"])
  else if String.eqb key "spam" then
    Some (Keywords ["buy followers"; "free"; "promo"; "visit"; "http"; "www";
                    "spam"; "emote"; "caps"; "repeated"])
  else if String.eqb key "rude" then
    Some (Keywords ["shut up"; "idiot"; "stupid"; "dumb"; "annoying"; "rude";
                    "mean"; "trash"; "loser"; "bad"; "worst"])
  else if String.eqb key "constructor" || String.eqb key "__proto__" then
    Some NotIterable
  else None.

(** [userScores.set(user, (userScores.get(user) || 0) + 1)] on a [Map],
    kept as the list of its entries in insertion order. *)
Fixpoint bump (user : string) (userScores : list (string * nat))
    : list (string * nat) :=
  match userScores with
  | [] => [(user, 1%nat)]
  | (u, n) :: rest =>
      if String.eqb u user then (u, (n + 1)%nat) :: rest
      else (u, n) :: bump user rest
  end.

(** The body of the outer loop for one message. *)
Definition scanMessage (keywords : list string)
    (userScores : list (string * nat)) (message : ChatMessage)
    : list (string * nat) :=
  let text := toLowerCase (content message) in
  foldl (λ scores keyword,
           if includes text keyword then bump (username message) scores
           else scores)
        userScores keywords.

(** [entries.sort(([,a], [,b]) => b - a)]: the sort is stable, so the
    result is the one arrangement by descending score that keeps entries
    of equal score in their original order. *)
Fixpoint insertByScore (x : string * nat) (sorted : list (string * nat))
    : list (string * nat) :=
  match sorted with
  | [] => [x]
  | y :: rest =>
      if (x.2 <? y.2)%nat then y :: insertByScore x rest else x :: sorted
  end.

Definition sortByScoreDesc (entries : list (string * nat))
    : list (string * nat) :=
  foldr insertByScore [] entries.

(** [DESCRIPTOR_KEYWORDS[descriptor.toLowerCase()] || [descriptor]] *)
Definition keywordsFor (descriptor : string) : KeywordSource :=
  default (Keywords [descriptor])
          (DESCRIPTOR_KEYWORDS (toLowerCase descriptor)).

Definition findUserByDescriptor (recentMessages : list ChatMessage)
    (descriptor : string) : Outcome (option string) :=
  let keywords := keywordsFor descriptor in
  match keywords with
  | NotIterable =>
      match recentMessages with
      | [] => Returned None
      | _ :: _ => Threw (typeError "keywords is not iterable")
      end
  | Keywords keywords =>
      let userScores := foldl (scanMessage keywords) [] recentMessages in
      match sortByScoreDesc userScores with
      | [] => Returned None
      | (user, _) :: _ => Returned (Some user)
      end
  end.

(** [/^[a-zA-Z0-9_]{3,25}$/.test(s)] *)
Definition isUsernameShape (s : string) : bool :=
  allChars isWordChar s
  && (3 <=? String.length s)%nat && (String.length s <=? 25)%nat.

(** The regular expression [/.*user named\s+/].  [userNamedAt s] matches
    [user named\s+] at the start of [s] and gives what follows the match. *)
Definition userNamedAt (s : string) : option string :=
  if startsWith "user named" s then
    match dropN 10 s with
    | String c t => if isWhiteSpace c then Some (trimStart t) else None
    | EmptyString => None
    end
  else None.

(** A match of the whole expression starting at the head of [s]: the
    greedy [.*] takes as many characters as it can without a line
    terminator and gives them back one at a time. *)
Fixpoint matchUserNamed (s : string) : option string :=
  match s with
  | EmptyString => userNamedAt s
  | String c t =>
      if isLineTerminator c then userNamedAt s
      else match matchUserNamed t with
           | Some rest => Some rest
           | None => userNamedAt s
           end
  end.

(** [input.replace(/.*user named\s+/, "")]: the leftmost match is cut. *)
Fixpoint replaceUserNamed (input : string) : string :=
  match matchUserNamed input with
  | Some rest => rest
  | None =>
      match input with
      | EmptyString => EmptyString
      | String c t => String c (replaceUserNamed t)
      end
  end.

(** [resolveModerationTarget(input)] for a string [input]; [None] is
    [null].  [candidate] is the source's local [username]. *)
Definition resolveModerationTarget (recentMessages : list ChatMessage)
    (input : string) : option string :=
  if isEmpty (trim input) then None
  else
    let lowered := toLowerCase input in
    if includes lowered "user named" || isUsernameShape (trim input) then
      let candidate := trim (replaceUserNamed input) in
      let found :=
        List.find (λ m, includes (toLowerCase (username m)) (toLowerCase candidate))
                  recentMessages in
      match found with
      | Some m => Some (if isEmpty (username m) then candidate else username m)
      | None => Some candidate
      end
    else None.

(** The same call on an arbitrary value, as the executor makes it:
    [input?.trim()] is [undefined] on a nullish input and a [TypeError] on
    a value without a [trim] method. *)
Definition resolveModerationTargetAny (recentMessages : list ChatMessage)
    (input : JSValue) : Outcome (option string) :=
  match input with
  | JUndefined | JNull => Returned None
  | JStr s => Returned (resolveModerationTarget recentMessages s)
  | _ => Threw (typeError "input?.trim is not a function")
  end.

(** [!targetUser] *)
Definition noTarget (targetUser : option string) : bool :=
  match targetUser with
  | None => true
  | Some s => isEmpty s
  end.

(** ** The server's state and its collaborators *)

Record Config := mkConfig {
  debug : bool;
  twitchClientId : string;
  twitchAuthToken : string;
  twitchBroadcasterId : string;
  twitchChannel : string
}.

Inductive HttpMethod := GET | POST | PATCH | DELETE.

Record FetchRequest := mkFetchRequest {
  url : string;
  method : HttpMethod;
  headers : list (string * string);
  body : option string
}.

(** What the server reads of a [Response]: [status] (and [ok], derived
    from it), [text()] and [json()]. *)
Record FetchResponse := mkFetchResponse {
  status : Z;
  text : Outcome string;
  json : Outcome JSValue
}.

Definition ok (response : FetchResponse) : bool :=
  (200 <=? status response) && (status response <=? 299).

(** The calls made to the outside, oldest first. *)
Inductive Effect :=
| EConnect
| ESay (channel : string) (message : JSValue)
| EFetch (request : FetchRequest).

(** The IRC client rejects its promises with a reason string or with an
    [Error]. *)
Inductive Rejection :=
| RejectReason (reason : string)
| RejectError (name message : string).

Definition rejectionValue (r : Rejection) : JSValue :=
  match r with
  | RejectReason reason => JStr reason
  | RejectError name message => mkError name message
  end.

(** The collaborators: each answer may depend on everything the server has
    done so far. *)
Record Env := mkEnv {
  tmiConnect : list Effect → option Rejection;
  tmiSay : list Effect → string → JSValue → option Rejection;
  fetchAnswer : list Effect → FetchRequest → Outcome FetchResponse;
  clock : list Effect → Z
}.

(** The module-level variables of the server, and the log of its calls. *)
Record State := mkState {
  recentMessages : list ChatMessage;
  ircConnected : bool;
  performed : list Effect
}.

(** Computations of the server: read the collaborators, update the state,
    return or throw. *)
Definition M (A : Type) : Type := Env → State → Outcome A * State.

#[global] Instance M_ret : MRet M := λ A a _ st, (Returned a, st).
#[global] Instance M_bind : MBind M := λ A B f m env st,
  match m env st with
  | (Returned a, st') => f a env st'
  | (Threw e, st') => (Threw e, st')
  end.

Definition throw {A} (e : JSValue) : M A := λ _ st, (Threw e, st).

(** [try { body } catch (error) { handler }] *)
Definition tryCatch {A} (body : M A) (handler : JSValue → M A) : M A :=
  λ env st,
    match body env st with
    | (Returned a, st') => (Returned a, st')
    | (Threw e, st') => handler e env st'
    end.

Definition lift {A} (o : Outcome A) : M A := λ _ st, (o, st).

Definition gets {A} (f : State → A) : M A := λ _ st, (Returned (f st), st).

Definition record (e : Effect) (st : State) : State :=
  mkState (recentMessages st) (ircConnected st) (performed st ++ [e]).

(** [await tmiClient.connect()] *)
Definition tmiClient_connect : M unit := λ env st,
  match tmiConnect env (performed st) with
  | None => (Returned (), record EConnect st)
  | Some r => (Threw (rejectionValue r), record EConnect st)
  end.

(** [await tmiClient.say(channel, message)] *)
Definition tmiClient_say (channel : string) (message : JSValue) : M unit :=
  λ env st,
    match tmiSay env (performed st) channel message with
    | None => (Returned (), record (ESay channel message) st)
    | Some r => (Threw (rejectionValue r), record (ESay channel message) st)
    end.

(** [await fetch(url, { method, headers, body })] *)
Definition fetch (request : FetchRequest) : M FetchResponse := λ env st,
  (fetchAnswer env (performed st) request, record (EFetch request) st).

Definition setIrcConnected (b : bool) : M unit := λ _ st,
  (Returned (), mkState (recentMessages st) b (performed st)).

(** [addChatMessage] on the shared log, stamping the message with
    [new Date()]. *)
Definition addChatMessageM (user text : string) : M unit := λ env st,
  (Returned (),
   mkState (addChatMessage (clock env (performed st)) user text (recentMessages st))
           (ircConnected st) (performed st)).

Definition ensureIrcConnection : M bool :=
  connected ← gets ircConnected;
  if connected : bool then mret true
  else tryCatch (tmiClient_connect;; setIrcConnected true;; mret true)
                (λ _, mret false).

(** ** The Twitch API wrapper *)

Definition apiError (kind : string) (code : Z) (message : JSValue) : JSValue :=
  JObj [("error", JStr kind); ("status", JNum code); ("message", message)].

Definition makeTwitchApiCall (config : Config) (endpoint : string)
    (method : HttpMethod) (body : option JSValue) : M JSValue :=
  let url := "https://api.twitch.tv/helix" +:+ endpoint in
  let headers :=
    [("Authorization", "Bearer " +:+ twitchAuthToken config);
     ("Client-Id", twitchClientId config);
     ("Content-Type", "application/json")] in
  tryCatch
    (payload ← match body with
               | Some b =>
                   if truthy b then
                     match JSON_stringify b with
                     | SText s => mret (Some s)
                     | SUndefined => mret None
                     | SThrows e => throw e
                     end
                   else mret None
               | None => mret None
               end;
     response ← fetch (mkFetchRequest url method headers payload);
     if negb (ok response) then
       errorText ← lift (text response);
       throw (apiError "API_ERROR" (status response)
                (jsOr (JStr errorText) (JStr ("HTTP " +:+ ofZ (status response)))))
     else if status response =? 204 then
       mret (JObj [("success", JBool true)])
     else lift (json response))
    (λ error,
       tag ← lift (getProp error "error");
       if truthy tag then throw error
       else
         message ← lift (getProp error "message");
         throw (apiError "NETWORK_ERROR" 0
                  (jsOr message (JStr "Network request failed")))).

(** [getUserIdFromUsername]: the user's id, or [null]. *)
Definition getUserIdFromUsername (config : Config) (user : string) : M JSValue :=
  tryCatch
    (response ← makeTwitchApiCall config
                  ("/users?login=" +:+ encodeURIComponent user) GET None;
     data ← lift (getProp response "data");
     first ← lift (getIndexOpt data 0);
     id ← lift (getPropOpt first "id");
     mret (jsOr id JNull))
    (λ _, mret JNull).

(** ** The moderation tools *)

(** [reason || fallback] for an optional string argument. *)
Definition textOr (reason : option string) (fallback : string) : string :=
  match reason with
  | Some r => if isEmpty r then fallback else r
  | None => fallback
  end.

Definition noUsernameText (log : list string) : string :=
  "No explicit username provided. Here are the last 20 chat messages:"
  +:+ LF +:+ join LF log.

Definition moderationBody (config : Config) (data : list (string * JSValue))
    : JSValue :=
  JObj [("broadcaster_id", JStr (twitchBroadcasterId config));
        ("moderator_id", JStr (twitchBroadcasterId config));
        ("data", JObj data)].

(** The handler of the [timeoutUser] tool; its arguments have passed the
    tool's schema, its result is the text of the reply. *)
Definition tool_timeoutUser (config : Config) (usernameOrDescriptor : string)
    (reason : option string) : M string :=
  tryCatch
    (messages ← gets recentMessages;
     let targetUser := resolveModerationTarget messages usernameOrDescriptor in
     if noTarget targetUser then
       log ← gets (λ st, getRecentChatLog 20 (recentMessages st));
       mret (noUsernameText log)
     else
       let targetUser := default EmptyString targetUser in
       userId ← getUserIdFromUsername config targetUser;
       if negb (truthy userId) then
         mret ("Could not resolve user ID for username: " +:+ targetUser)
       else
         let timeoutReason := textOr reason "inappropriate behavior" in
         let duration := guessTimeoutDuration timeoutReason in
         makeTwitchApiCall config "/moderation/bans" POST
           (Some (moderationBody config
                    [("user_id", userId); ("reason", JStr timeoutReason);
                     ("duration", JNum duration)]));;
         mret ("Successfully timed out " +:+ targetUser +:+ " for "
               +:+ ofZ duration +:+ " seconds. Reason: " +:+ timeoutReason))
    (λ error,
       message ← lift (getProp error "message");
       mret ("Error timing out user: " +:+ toJsString message)).

(** The handler of the [banUser] tool. *)
Definition tool_banUser (config : Config) (usernameOrDescriptor : string)
    (reason : option string) : M string :=
  tryCatch
    (messages ← gets recentMessages;
     let targetUser := resolveModerationTarget messages usernameOrDescriptor in
     if noTarget targetUser then
       log ← gets (λ st, getRecentChatLog 20 (recentMessages st));
       mret (noUsernameText log)
     else
       let targetUser := default EmptyString targetUser in
       userId ← getUserIdFromUsername config targetUser;
       if negb (truthy userId) then
         mret ("Could not resolve user ID for username: " +:+ targetUser)
       else
         let banReason := textOr reason "severe violation of chat rules" in
         makeTwitchApiCall config "/moderation/bans" POST
           (Some (moderationBody config
                    [("user_id", userId); ("reason", JStr banReason)]));;
         mret ("Successfully banned " +:+ targetUser +:+ ". Reason: "
               +:+ banReason))
    (λ error,
       message ← lift (getProp error "message");
       mret ("Error banning user: " +:+ toJsString message)).

(** ** The executor of autonomous actions *)

Record ExecResult := mkExecResult {
  success : bool;
  result : JSValue;
  error : option JSValue
}.

Definition failure (message : string) : ExecResult :=
  mkExecResult false JNull (Some (JStr message)).
Definition succeeded (value : JSValue) : ExecResult :=
  mkExecResult true value None.

(** [parameters.key] *)
Definition param (parameters : gmap string JSValue) (key : string) : JSValue :=
  default JUndefined (parameters !! key).

(** [guessTimeoutDuration(v)] on an arbitrary value. *)
Definition guessTimeoutDurationAny (reason : JSValue) : Outcome Z :=
  match reason with
  | JStr s => Returned (guessTimeoutDuration s)
  | _ => Threw (typeError "reason.toLowerCase is not a function")
  end.

(** [v.split(',').map(c => ({ title: c.trim() }))] *)
Definition splitTitles (field : string) (v : JSValue) : Outcome JSValue :=
  match v with
  | JStr s =>
      Returned (JArr (List.map (λ c, JObj [("title", JStr (trim c))])
                               (splitChar ","%char s)))
  | JUndefined =>
      Threw (typeError "Cannot read properties of undefined (reading 'split')")
  | JNull =>
      Threw (typeError "Cannot read properties of null (reading 'split')")
  | _ => Threw (typeError ("parameters." +:+ field +:+ ".split is not a function"))
  end.

(** [a === b] against a number. *)
Definition isNumber (n : Z) (v : JSValue) : bool :=
  match v with
  | JNum m => m =? n
  | _ => false
  end.

Definition exec_sendMessageToChat (config : Config)
    (parameters : gmap string JSValue) : M ExecResult :=
  connected ← ensureIrcConnection;
  if negb connected then mret (failure "IRC connection not available")
  else
    tmiClient_say ("#" +:+ twitchChannel config) (param parameters "message");;
    addChatMessageM (twitchChannel config)
      ("[BOT] " +:+ toJsString (param parameters "message"));;
    mret (succeeded (JObj [("message", param parameters "message")])).

Definition exec_timeoutUser (config : Config)
    (parameters : gmap string JSValue) : M ExecResult :=
  messages ← gets recentMessages;
  targetUser ← lift (resolveModerationTargetAny messages
                       (param parameters "usernameOrDescriptor"));
  if noTarget targetUser then mret (failure "Could not resolve target user")
  else
    let targetUser := default EmptyString targetUser in
    userId ← getUserIdFromUsername config targetUser;
    if negb (truthy userId) then
      mret (failure ("Could not resolve user ID for " +:+ targetUser))
    else
      duration ←
        (if truthy (param parameters "duration")
         then mret (param parameters "duration")
         else
           seconds ← lift (guessTimeoutDurationAny
                             (jsOr (param parameters "reason") (JStr EmptyString)));
           mret (JNum seconds));
      makeTwitchApiCall config "/moderation/bans" POST
        (Some (moderationBody config
                 [("user_id", userId);
                  ("reason", jsOr (param parameters "reason")
                                  (JStr "Autonomous moderation"));
                  ("duration", duration)]));;
      mret (succeeded (JObj [("user", JStr targetUser); ("duration", duration);
                             ("reason", param parameters "reason")])).

Definition exec_banUser (config : Config)
    (parameters : gmap string JSValue) : M ExecResult :=
  messages ← gets recentMessages;
  targetUser ← lift (resolveModerationTargetAny messages
                       (param parameters "usernameOrDescriptor"));
  if noTarget targetUser then mret (failure "Could not resolve target user")
  else
    let targetUser := default EmptyString targetUser in
    userId ← getUserIdFromUsername config targetUser;
    if negb (truthy userId) then
      mret (failure ("Could not resolve user ID for " +:+ targetUser))
    else
      makeTwitchApiCall config "/moderation/bans" POST
        (Some (moderationBody config
                 [("user_id", userId);
                  ("reason", jsOr (param parameters "reason")
                                  (JStr "Autonomous moderation"))]));;
      mret (succeeded (JObj [("user", JStr targetUser);
                             ("reason", param parameters "reason")])).

Definition exec_createTwitchPoll (config : Config)
    (parameters : gmap string JSValue) : M ExecResult :=
  choicesArray ← lift (splitTitles "choices" (param parameters "choices"));
  response ← makeTwitchApiCall config "/polls" POST
               (Some (JObj [("broadcaster_id", JStr (twitchBroadcasterId config));
                            ("title", param parameters "title");
                            ("choices", choicesArray);
                            ("duration", param parameters "duration")]));
  mret (succeeded response).

Definition exec_createTwitchPrediction (config : Config)
    (parameters : gmap string JSValue) : M ExecResult :=
  outcomesArray ← lift (splitTitles "outcomes" (param parameters "outcomes"));
  response ← makeTwitchApiCall config "/predictions" POST
               (Some (JObj [("broadcaster_id", JStr (twitchBroadcasterId config));
                            ("title", param parameters "title");
                            ("outcomes", outcomesArray);
                            ("prediction_window", param parameters "duration")]));
  mret (succeeded response).

Definition exec_createTwitchClip (config : Config)
    (parameters : gmap string JSValue) : M ExecResult :=
  response ← makeTwitchApiCall config
               ("/clips?broadcaster_id=" +:+ twitchBroadcasterId config) POST None;
  mret (succeeded response).

Definition exec_updateStreamTitle (config : Config)
    (parameters : gmap string JSValue) : M ExecResult :=
  makeTwitchApiCall config "/channels" PATCH
    (Some (JObj [("broadcaster_id", JStr (twitchBroadcasterId config));
                 ("title", param parameters "title")]));;
  mret (succeeded (JObj [("title", param parameters "title")])).

Definition exec_updateStreamCategory (config : Config)
    (parameters : gmap string JSValue) : M ExecResult :=
  searchResponse ← makeTwitchApiCall config
                     ("/search/categories?query=" +:+
                      encodeURIComponent (toJsString (param parameters "category")))
                     GET None;
  data ← lift (getProp searchResponse "data");
  missing ← (if negb (truthy data) then mret true
             else len ← lift (getProp data "length"); mret (isNumber 0 len));
  if missing : bool then
    mret (failure ("Could not find category: " +:+
                   toJsString (param parameters "category")))
  else
    first ← lift (getIndex data 0);
    categoryId ← lift (getProp first "id");
    makeTwitchApiCall config "/channels" PATCH
      (Some (JObj [("broadcaster_id", JStr (twitchBroadcasterId config));
                   ("game_id", categoryId)]));;
    mret (succeeded (JObj [("category", param parameters "category");
                           ("categoryId", categoryId)])).

(** The [catch] of the executor:
    [err.message || error.message || 'Unknown error'] is read off whatever
    was thrown. *)
Definition executorCatch (error : JSValue) : M ExecResult :=
  message ← lift (getProp error "message");
  mret (mkExecResult false JNull
          (Some (jsOr (jsOr message message) (JStr "Unknown error")))).

(** [mcpExecutor(toolName, parameters)]: the [switch] inside one [try]. *)
Definition mcpExecutor (config : Config) (toolName : string)
    (parameters : gmap string JSValue) : M ExecResult :=
  tryCatch
    (if String.eqb toolName "sendMessageToChat" then
       exec_sendMessageToChat config parameters
     else if String.eqb toolName "timeoutUser" then
       exec_timeoutUser config parameters
     else if String.eqb toolName "banUser" then
       exec_banUser config parameters
     else if String.eqb toolName "createTwitchPoll" then
       exec_createTwitchPoll config parameters
     else if String.eqb toolName "createTwitchPrediction" then
       exec_createTwitchPrediction config parameters
     else if String.eqb toolName "createTwitchClip" then
       exec_createTwitchClip config parameters
     else if String.eqb toolName "updateStreamTitle" then
       exec_updateStreamTitle config parameters
     else if String.eqb toolName "updateStreamCategory" then
       exec_updateStreamCategory config parameters
     else mret (failure ("Unknown tool: " +:+ toolName)))
    executorCatch.

(** ** Chat analysis *)

(** Common words left out of the chat analysis. *)
Definition COMMON_WORDS : gset string :=
  list_to_set
    ["the"; "and"; "that"; "have"; "for"; "not"; "with"; "you"; "this"; "but";
     "his"; "from"; "they"; "say"; "her"; "she"; "will"; "one"; "all"; "would";
     "there"; "their"; "what"; "so"; "up"; "out"; "if"; "about"; "who"; "get";
     "which"; "go"; "me"; "when"; "make"; "can"; "like"; "time"; "no"; "just";
     "him"; "know"; "take"; "people"; "into"; "year"; "your"; "good"; "some";
     "could"; "them"; "see"; "other"; "than"; "then"; "now"; "look"; "only";
     "come"; "its"; "over"; "think"; "also"; "back"; "after"; "use"; "two";
     "how"; "our"; "work"; "first"; "well"; "way"; "even"; "new"; "want";
     "because"; "any"; "these"; "give"; "day"; "most"; "us"].

(** [s.split(/\s+/)]: every run of white space separates two pieces, so a
    string that starts or ends with white space has an empty first or last
    piece.  [afterSpace] tells that the previous character belonged to a
    separator. *)
Fixpoint splitWhitespaceFrom (afterSpace : bool) (s : string) : list string :=
  match s with
  | EmptyString => [EmptyString]
  | String c t =>
      if isWhiteSpace c then
        if afterSpace then splitWhitespaceFrom true t
        else EmptyString :: splitWhitespaceFrom true t
      else match splitWhitespaceFrom false t with
           | w :: ws => String c w :: ws
           | [] => [String c EmptyString]
           end
  end.

Definition splitWhitespace (s : string) : list string :=
  splitWhitespaceFrom false s.

(** The body of the inner loop of [analyzeChat] for one word. *)
Definition countWord (wordFrequency : list (string * nat)) (word : string)
    : list (string * nat) :=
  if (3 <? String.length word)%nat && negb (bool_decide (word ∈ COMMON_WORDS))
  then bump word wordFrequency else wordFrequency.

(** The body of the outer loop: the pair is [wordFrequency] and
    [totalWords]. *)
Definition analyzeMessage (acc : list (string * nat) * nat)
    (message : ChatMessage) : list (string * nat) * nat :=
  let words := splitWhitespace (toLowerCase (content message)) in
  (foldl countWord acc.1 words, (acc.2 + length words)%nat).

Definition formatTopic (entry : string * nat) : string :=
  entry.1 +:+ " (" +:+ ofZ (Z.of_nat entry.2) +:+ " mentions)".

(** The five most frequent words, [entries.sort(...).slice(0, 5)]. *)
Definition topEntries (recentMessages : list ChatMessage)
    : list (string * nat) :=
  take 5 (sortByScoreDesc (foldl analyzeMessage ([], 0%nat) recentMessages).1).

(** [analyzeChat()].  [toFixed1 total n] stands for
    [(total / n).toFixed(1)], a floating-point computation that is taken as
    given. *)
Definition analyzeChat (toFixed1 : nat → nat → string)
    (recentMessages : list ChatMessage) : string :=
  match recentMessages with
  | [] => "No recent chat messages to analyze."
  | _ :: _ =>
      let totalWords := (foldl analyzeMessage ([], 0%nat) recentMessages).2 in
      let topWords := formatTopic <$> topEntries recentMessages in
      let avgWordsPerMessage := toFixed1 totalWords (length recentMessages) in
      "Chat Analysis:" +:+ LF +:+ "- Total messages: "
      +:+ ofZ (Z.of_nat (length recentMessages)) +:+ LF
      +:+ "- Average words per message: " +:+ avgWordsPerMessage +:+ LF
      +:+ "- Top topics: "
      +:+ (match topWords with
           | [] => "No significant topics detected"
           | _ :: _ => join ", " topWords
           end)
  end.

(** ** The heuristic analysis function *)

(** The text [JSON.stringify] gives for a value it can serialize. *)
Definition jsonText (v : JSValue) : string :=
  match JSON_stringify v with
  | SText s => s
  | SUndefined | SThrows _ => EmptyString
  end.

(** [aiAnalyzeFunction(prompt)]; the answers are fixed values. *)
Definition aiAnalyzeFunction (prompt : string) : string :=
  let lowerPrompt := toLowerCase prompt in
  if includes lowerPrompt "toxicity" then jsonText (JArr [])
  else if includes lowerPrompt "spam" then jsonText (JArr [])
  else if includes lowerPrompt "engagement" then jsonText (JArr [])
  else if includes lowerPrompt "sentiment" then
    jsonText (JObj [("overallSentiment", JNum 0);
                    ("reasoning",
                     JStr "Basic heuristic analysis - LLM integration needed");
                    ("keyIndicators", JArr [JStr "neutral chat"])])
  else if includes lowerPrompt "activity" then
    jsonText (JObj [("activityLevel", JNum 5);
                    ("description", JStr "Moderate activity detected");
                    ("recommendations",
                     JArr [JStr "Monitor chat for engagement opportunities"])])
  else jsonText (JObj [("error", JStr "Unknown analysis type")]).

(** ** The chat listener *)

(** The tags of an incoming message that the listener reads; [None] is an
    absent tag. *)
Record Tags := mkTags {
  tagUsername : option string;
  tagDisplayName : option string
}.

(** [tags.username || tags['display-name'] || 'unknown'] *)
Definition senderName (tags : Tags) : string :=
  textOr (tagUsername tags) (textOr (tagDisplayName tags) "unknown").

(** The ['message'] listener, as far as the chat log goes (it also hands
    the message to the autonomous monitor); [now] is the reading of
    [new Date()]. *)
Definition onMessage (now : Z) (tags : Tags) (message : string) (self : bool)
    (recentMessages : list ChatMessage) : list ChatMessage :=
  if self then recentMessages
  else addChatMessage now (senderName tags) message recentMessages.

(** ** The other tools *)

(** The handler of the [getRecentChatLog] tool. *)
Definition tool_getRecentChatLog : M string :=
  log ← gets (λ st, getRecentChatLog 20 (recentMessages st));
  match log with
  | [] => mret "No recent chat messages available."
  | _ :: _ => mret (join LF log)
  end.

(** The handler of the [analyzeChat] tool. *)
Definition tool_analyzeChat (toFixed1 : nat → nat → string) : M string :=
  gets (λ st, analyzeChat toFixed1 (recentMessages st)).

(** [await tmiClient.say(channel, message)], giving the rejection instead
    of throwing it. *)
Definition tmiClient_say_settled (channel : string) (message : JSValue)
    : M (option Rejection) :=
  λ env st,
    (Returned (tmiSay env (performed st) channel message),
     record (ESay channel message) st).

(** The handler of the [sendMessageToChat] tool.  Only the call of [say]
    can throw inside its [try]; the [catch] keeps the message of an [Error]
    and answers "Unknown error" for any other rejection. *)
Definition tool_sendMessageToChat (config : Config) (message : string)
    : M string :=
  connected ← ensureIrcConnection;
  if negb connected then
    mret "Failed to send message: IRC connection not available"
  else
    settled ← tmiClient_say_settled ("#" +:+ twitchChannel config) (JStr message);
    match settled with
    | None =>
        addChatMessageM (twitchChannel config) ("[BOT] " +:+ message);;
        mret ("Successfully sent message to Twitch chat: " +:+ message)
    | Some (RejectError _ errorMessage) =>
        mret ("Failed to send message: " +:+ errorMessage)
    | Some (RejectReason _) =>
        mret ("Failed to send message: " +:+ "Unknown error")
    end.

(** The [catch] of the API tools: the reply is [prefix] followed by
    [err.message]. *)
Definition replyWithError (prefix : string) (error : JSValue) : M string :=
  message ← lift (getProp error "message");
  mret (prefix +:+ toJsString message).

(** The handler of the [createTwitchPoll] tool. *)
Definition tool_createTwitchPoll (config : Config) (title choices : string)
    (duration : Z) : M string :=
  tryCatch
    (choicesArray ← lift (splitTitles "choices" (JStr choices));
     makeTwitchApiCall config "/polls" POST
       (Some (JObj [("broadcaster_id", JStr (twitchBroadcasterId config));
                    ("title", JStr title);
                    ("choices", choicesArray);
                    ("duration", JNum duration)]));;
     mret "Poll created successfully!")
    (replyWithError "Error creating poll: ").

(** The handler of the [createTwitchPrediction] tool. *)
Definition tool_createTwitchPrediction (config : Config)
    (title outcomes : string) (duration : Z) : M string :=
  tryCatch
    (outcomesArray ← lift (splitTitles "outcomes" (JStr outcomes));
     makeTwitchApiCall config "/predictions" POST
       (Some (JObj [("broadcaster_id", JStr (twitchBroadcasterId config));
                    ("title", JStr title);
                    ("outcomes", outcomesArray);
                    ("prediction_window", JNum duration)]));;
     mret "Prediction created successfully!")
    (replyWithError "Error creating prediction: ").

(** The handler of the [createTwitchClip] tool. *)
Definition tool_createTwitchClip (config : Config) : M string :=
  tryCatch
    (response ← makeTwitchApiCall config
                  ("/clips?broadcaster_id=" +:+ twitchBroadcasterId config)
                  POST None;
     data ← lift (getProp response "data");
     first ← lift (getIndexOpt data 0);
     editUrl ← lift (getPropOpt first "edit_url");
     mret (if truthy editUrl
           then "Clip created successfully! You can view it at: "
                +:+ toJsString editUrl
           else "Clip created successfully!"))
    (replyWithError "Error creating clip: ").

(** [title.replace(/"/g, '\\"')]: a backslash in front of every double
    quote. *)
Fixpoint escapeQuotes (s : string) : string :=
  match s with
  | EmptyString => EmptyString
  | String c t =>
      if Ascii.eqb c dquote then String "\"%char (String dquote (escapeQuotes t))
      else String c (escapeQuotes t)
  end.

(** The handler of the [updateStreamTitle] tool. *)
Definition tool_updateStreamTitle (config : Config) (title : string)
    : M string :=
  tryCatch
    (makeTwitchApiCall config "/channels" PATCH
       (Some (JObj [("broadcaster_id", JStr (twitchBroadcasterId config));
                    ("title", JStr (escapeQuotes title))]));;
     mret ("Successfully updated stream title to: " +:+ title))
    (replyWithError "Failed to update stream title: ").

(** The handler of the [updateStreamCategory] tool. *)
Definition tool_updateStreamCategory (config : Config) (category : string)
    : M string :=
  tryCatch
    (searchResponse ← makeTwitchApiCall config
                        ("/search/categories?query=" +:+ encodeURIComponent category)
                        GET None;
     data ← lift (getProp searchResponse "data");
     missing ← (if negb (truthy data) then mret true
                else len ← lift (getProp data "length"); mret (isNumber 0 len));
     if missing : bool then
       mret ("Could not find a Twitch category named '" +:+ category +:+ "'.")
     else
       first ← lift (getIndex data 0);
       categoryId ← lift (getProp first "id");
       makeTwitchApiCall config "/channels" PATCH
         (Some (JObj [("broadcaster_id", JStr (twitchBroadcasterId config));
                      ("game_id", categoryId)]));;
       mret ("Successfully updated stream category to: " +:+ category))
    (replyWithError "Failed to update stream category: ").

(** ** Vocabulary of the statements *)

(** [keyword] occurs in [s]. *)
Definition occursIn (keyword s : string) : Prop :=
  ∃ before after, s = before +:+ keyword +:+ after.

(** The lower-cased reason contains [keyword]. *)
Definition mentions (reason keyword : string) : Prop :=
  occursIn keyword (toLowerCase reason).

(** A run of [addChatMessage] calls, each with its clock reading. *)
Definition messageOf (input : Z * string * string) : ChatMessage :=
  let '(now, user, text) := input in mkChatMessage user text now.

Definition ingest (inputs : list (Z * string * string))
    (log : list ChatMessage) : list ChatMessage :=
  foldl (λ log input,
           let '(now, user, text) := input in addChatMessage now user text log)
        log inputs.

(** Keyword hits of one message, and the score of a user: the hits of that
    user's messages added up. *)
Definition hits (keywords : list string) (m : ChatMessage) : nat :=
  length (List.filter (includes (toLowerCase (content m))) keywords).

Definition score (keywords : list string) (log : list ChatMessage)
    (user : string) : nat :=
  sum_list_with
    (λ m, if String.eqb (username m) user then hits keywords m else 0%nat) log.

(** The [Map] after the scan of [log]. *)
Definition scanLog (keywords : list string) (log : list ChatMessage)
    : list (string * nat) :=
  foldl (scanMessage keywords) [] log.

(** The entries in front of the entry of [user]. *)
Fixpoint entriesBefore (user : string) (entries : list (string * nat))
    : list (string * nat) :=
  match entries with
  | [] => []
  | (u, n) :: rest =>
      if String.eqb u user then [] else (u, n) :: entriesBefore user rest
  end.

Definition descending : list (string * nat) → Prop :=
  StronglySorted (λ a b, (b.2 ≤ a.2)%nat).

(** The buffered user name that contains [candidate], if any, else
    [candidate] itself. *)
Definition canonical (log : list ChatMessage) (candidate : string) : string :=
  from_option username candidate
    (List.find (λ m, includes (toLowerCase (username m)) (toLowerCase candidate))
               log).

Definition bigIntError : JSValue :=
  typeError "Do not know how to serialize a BigInt".

(** [outcomes m Q E]: whenever [m] returns, its value satisfies [Q];
    whenever it throws, the thrown value satisfies [E]. *)
Definition outcomes {A} (m : M A) (Q : A → Prop) (E : JSValue → Prop) : Prop :=
  ∀ env st, match (m env st).1 with
            | Returned a => Q a
            | Threw e => E e
            end.

Definition pureOutcome {A} (o : Outcome A) (Q : A → Prop) (E : JSValue → Prop)
    : Prop :=
  match o with
  | Returned a => Q a
  | Threw e => E e
  end.

Definition notNullish (e : JSValue) : Prop := isNullish e = false.
Definition anyValue {A} (a : A) : Prop := True.
Definition never (e : JSValue) : Prop := False.


(** [transforms m f]: whatever [m] answers, it leaves the state [f st]. *)
Definition transforms {A} (m : M A) (f : State → State) : Prop :=
  ∀ env st, (m env st).2 = f st.

(** The names the [switch] of the executor has a case for. *)
Definition recognizedTools : list string :=
  ["sendMessageToChat"; "timeoutUser"; "banUser"; "createTwitchPoll";
   "createTwitchPrediction"; "createTwitchClip"; "updateStreamTitle";
   "updateStreamCategory"].

Definition dispatchTable
    : list (string * (Config → gmap string JSValue → M ExecResult)) :=
  [("sendMessageToChat", exec_sendMessageToChat);
   ("timeoutUser", exec_timeoutUser);
   ("banUser", exec_banUser);
   ("createTwitchPoll", exec_createTwitchPoll);
   ("createTwitchPrediction", exec_createTwitchPrediction);
   ("createTwitchClip", exec_createTwitchClip);
   ("updateStreamTitle", exec_updateStreamTitle);
   ("updateStreamCategory", exec_updateStreamCategory)].

(** The action names as the design document spells them. *)
Definition specActionNames : list string :=
  ["send-chat-message"; "timeout-user"; "ban-user"; "create-poll";
   "create-prediction"; "create-clip"; "update-title"; "update-category"].

(** Some configuration, parameters, collaborators and state make the
    executor report success for [toolName]. *)
Definition canSucceed (toolName : string) : Prop :=
  ∃ config parameters env st,
    match (mcpExecutor config toolName parameters env st).1 with
    | Returned r => success r = true
    | Threw _ => False
    end.

(** The request of the user-id lookup. *)
Definition lookupRequest (config : Config) (user : string) : FetchRequest :=
  mkFetchRequest
    ("https://api.twitch.tv/helix" +:+ "/users?login=" +:+ encodeURIComponent user)
    GET
    [("Authorization", "Bearer " +:+ twitchAuthToken config);
     ("Client-Id", twitchClientId config);
     ("Content-Type", "application/json")]
    None.

Definition lookupOnly (e : Effect) : Prop :=
  match e with
  | EFetch request => method request = GET
  | _ => False
  end.

(** The target of a timeout or ban has no platform identity: the resolver
    gives nothing, or the id lookup gives nothing for the resolved name. *)
Definition targetUnresolved (config : Config)
    (parameters : gmap string JSValue) (env : Env) (st : State) : Prop :=
  let target := resolveModerationTargetAny (recentMessages st)
                  (param parameters "usernameOrDescriptor") in
  (∃ t, target = Returned t ∧ noTarget t = true)
  ∨ (∃ user userId st',
       target = Returned (Some user) ∧ isEmpty user = false
       ∧ getUserIdFromUsername config user env st = (Returned userId, st')
       ∧ truthy userId = false).

(** The request [makeTwitchApiCall] sends for an endpoint. *)
Definition apiRequest (config : Config) (endpoint : string)
    (method : HttpMethod) (payload : option string) : FetchRequest :=
  mkFetchRequest ("https://api.twitch.tv/helix" +:+ endpoint) method
    [("Authorization", "Bearer " +:+ twitchAuthToken config);
     ("Client-Id", twitchClientId config);
     ("Content-Type", "application/json")]
    payload.

(** The payload of a call: the JSON text of a truthy body that
    serializes. *)
Definition payloadOf (body : option JSValue) (payload : option string) : Prop :=
  match body with
  | Some b =>
      if truthy b then
        match JSON_stringify b with
        | SText s => payload = Some s
        | SUndefined => payload = None
        | SThrows _ => False
        end
      else payload = None
  | None => payload = None
  end.

(** [error.message || 'Network request failed'] *)
Definition networkError (message : JSValue) : JSValue :=
  apiError "NETWORK_ERROR" 0 (jsOr message (JStr "Network request failed")).

(** The words [analyzeChat] reads, message by message. *)
Definition chatWords (log : list ChatMessage) : list string :=
  concat ((λ m, splitWhitespace (toLowerCase (content m))) <$> log).

(** A word that counts towards the topics. *)
Definition significant (word : string) : Prop :=
  (3 < String.length word)%nat ∧ word ∉ COMMON_WORDS.

Definition occurrences (word : string) (words : list string) : nat :=
  length (filter (λ w, w = word) words).


(** ** Fixtures *)

(** The three-message log of the design document. *)
Definition fixture : list ChatMessage :=
  [mkChatMessage "alice" "you're an idiot" 0;
   mkChatMessage "bob" "idiot much?" 1;
   mkChatMessage "alice" "so dumb" 2].

(** A log on which two users reach the same score. *)
Definition tieFixture : list ChatMessage :=
  [mkChatMessage "carol" "hello all" 0;
   mkChatMessage "bob" "you are trash" 1;
   mkChatMessage "alice" "what an idiot" 2;
   mkChatMessage "alice" "gg" 3].

Definition sampleConfig : Config :=
  mkConfig false "client" "token" "123" "channel".

Definition usersFound : FetchResponse :=
  mkFetchResponse 200 (Returned EmptyString)
    (Returned (JObj [("data", JArr [JObj [("id", JStr "42")]])])).

Definition nobodyFound : FetchResponse :=
  mkFetchResponse 200 (Returned EmptyString)
    (Returned (JObj [("data", JArr [])])).

(** Collaborators that accept every call. *)
Definition cooperative : Env :=
  mkEnv (λ _, None) (λ _ _ _, None) (λ _ _, Returned usersFound) (λ _, 0).

(** Collaborators whose user search finds nobody. *)
Definition emptyDirectory : Env :=
  mkEnv (λ _, None) (λ _ _ _, None) (λ _ _, Returned nobodyFound) (λ _, 0).

Definition sampleParameters : gmap string JSValue :=
  list_to_map
    [("message", JStr "hello"); ("usernameOrDescriptor", JStr "bob_1");
     ("reason", JStr "rude"); ("choices", JStr "yes, no");
     ("outcomes", JStr "win,lose"); ("title", JStr "Next map?");
     ("duration", JNum 60); ("category", JStr "Just Chatting")].

Definition emptyState : State := mkState [] false [].

(** Collaborators whose API rejects the token. *)
Definition unauthorized : Env :=
  mkEnv (λ _, None) (λ _ _ _, None)
        (λ _ _, Returned (mkFetchResponse 401 (Returned "bad token") (Threw JNull)))
        (λ _, 0).

(** Collaborators whose API answers the searches but refuses every other
    request. *)
Definition readOnly : Env :=
  mkEnv (λ _, None) (λ _ _ _, None)
        (λ _ request,
           match method request with
           | GET => Returned usersFound
           | _ => Returned (mkFetchResponse 403 (Returned "forbidden") (Threw JNull))
           end)
        (λ _, 0).

(** ** Induction on values *)

Section JSValueInduction.
Variable P : JSValue → Prop.
Hypothesis Hundefined : P JUndefined.
Hypothesis Hnull : P JNull.
Hypothesis Hbool : ∀ b, P (JBool b).
Hypothesis Hnum : ∀ n, P (JNum n).
Hypothesis Hbigint : ∀ n, P (JBigInt n).
Hypothesis Hstr : ∀ s, P (JStr s).
Hypothesis Harr : ∀ items, Forall P items → P (JArr items).
Hypothesis Hobj : ∀ fields, Forall (λ kv, P kv.2) fields → P (JObj fields).

Fixpoint JSValue_nested_ind (v : JSValue) : P v :=
  match v with
  | JUndefined => Hundefined
  | JNull => Hnull
  | JBool b => Hbool b
  | JNum n => Hnum n
  | JBigInt n => Hbigint n
  | JStr s => Hstr s
  | JArr items =>
      Harr items
        ((fix all (l : list JSValue) : Forall P l :=
            match l with
            | [] => Forall_nil_2 P
            | x :: l' => Forall_cons_2 P x l' (JSValue_nested_ind x) (all l')
            end) items)
  | JObj fields =>
      Hobj fields
        ((fix all (l : list (string * JSValue)) : Forall (λ kv, P kv.2) l :=
            match l with
            | [] => Forall_nil_2 _
            | kv :: l' =>
                Forall_cons_2 (λ kv, P kv.2) kv l' (JSValue_nested_ind kv.2) (all l')
            end) fields)
  end.
End JSValueInduction.

(** * Properties *)

(** ** The model on sample inputs *)

Example guess_spam_caps : guessTimeoutDuration "Spamming CAPS" = 300.
Proof. reflexivity. Qed.

Example guess_rude : guessTimeoutDuration "being Rude" = 1800.
Proof. reflexivity. Qed.

Example encode_query : encodeURIComponent "a b&c" = "a%20b%26c".
Proof. reflexivity. Qed.

Example trim_spaces : trim "  a b  " = "a b".
Proof. reflexivity. Qed.

Example split_choices :
  splitChar ","%char "a, b,,c" = ["a"; " b"; EmptyString; "c"].
Proof. reflexivity. Qed.

Example number_text : ofZ (-42) = "-42" ∧ ofZ 0 = "0" ∧ ofZ 1800 = "1800".
Proof. repeat split; reflexivity. Qed.

Example sort_is_stable :
  sortByScoreDesc [("a", 1); ("b", 2); ("c", 2); ("d", 1); ("e", 3)]%nat
  = [("e", 3); ("b", 2); ("c", 2); ("a", 1); ("d", 1)]%nat.
Proof. reflexivity. Qed.

Example replace_takes_last_phrase :
  replaceUserNamed "the user named x or the user named  bob now" = "bob now".
Proof. reflexivity. Qed.

Example replace_stays_on_line :
  replaceUserNamed ("first" +:+ LF +:+ "then user named bob") = "first" +:+ LF +:+ "bob".
Proof. reflexivity. Qed.

Example stringify_nested :
  JSON_stringify (JObj [("a", JNum 1); ("b", JArr [JStr "x"; JUndefined]);
                        ("c", JUndefined)])
  = SText ("{" +:+ quoteJSON "a" +:+ ":1," +:+ quoteJSON "b" +:+ ":["
           +:+ quoteJSON "x" +:+ ",null]}").
Proof. reflexivity. Qed.

Example stringify_indented :
  JSON_stringify_indent2 (JArr [JNum 1; JObj []])
  = SText ("[" +:+ LF +:+ "  1," +:+ LF +:+ "  {}" +:+ LF +:+ "]").
Proof. reflexivity. Qed.

Example executor_sends_message :
  mcpExecutor sampleConfig "sendMessageToChat" sampleParameters cooperative emptyState
  = (Returned (succeeded (JObj [("message", JStr "hello")])),
     mkState [mkChatMessage "channel" "[BOT] hello" 0] true
             [EConnect; ESay "#channel" (JStr "hello")]).
Proof. reflexivity. Qed.

(** ** Strings *)

Section StringFacts.

Lemma append_cons c (a b : string) : String c a +:+ b = String c (a +:+ b).
Proof. reflexivity. Qed.

Lemma startsWith_spec p s : startsWith p s = true ↔ ∃ t, s = p +:+ t.
Proof.
  revert s. induction p as [|a p IH]; intros s; simpl.
  - split; [eauto|done].
  - destruct s as [|b s].
    + split; [done|]. intros [t Ht]. discriminate.
    + destruct (Ascii.eqb a b) eqn:Hab.
      * apply Ascii.eqb_eq in Hab as ->. rewrite IH.
        split; intros [t Ht]; exists t; rewrite ?append_cons in *; congruence.
      * split; [done|]. intros [t Ht]. rewrite append_cons in Ht.
        injection Ht as -> _. by rewrite Ascii.eqb_refl in Hab.
Qed.

Lemma includes_spec hay needle :
  includes hay needle = true ↔ occursIn needle hay.
Proof.
  unfold occursIn. induction hay as [|c hay IH].
  - simpl. rewrite orb_false_r, startsWith_spec. split.
    + intros [t Ht]. by exists EmptyString, t.
    + intros ([|? ?] & after & Ht); [eauto | discriminate].
  - simpl. rewrite orb_true_iff, startsWith_spec, IH. split.
    + intros [[t Ht] | (before & after & Ht)].
      * by exists EmptyString, t.
      * exists (String c before), after. by rewrite append_cons, Ht.
    + intros ([|x before] & after & Ht).
      * left. eauto.
      * right. rewrite append_cons in Ht. injection Ht as -> ->. eauto.
Qed.

Lemma toLowerCase_app a b :
  toLowerCase (a +:+ b) = toLowerCase a +:+ toLowerCase b.
Proof.
  induction a as [|x a IH]; [done|].
  rewrite append_cons. simpl. by rewrite IH, append_cons.
Qed.

(** A keyword written in lower case that occurs in the reason as typed also
    occurs in the lower-cased reason. *)
Lemma occursIn_mentions keyword reason :
  toLowerCase keyword = keyword → occursIn keyword reason → mentions reason keyword.
Proof.
  intros Hk (before & after & ->). unfold mentions.
  exists (toLowerCase before), (toLowerCase after).
  by rewrite !toLowerCase_app, Hk.
Qed.


End StringFacts.

(** ** The chat log *)

Section ChatLog.

Lemma ingest_snoc inputs input log :
  ingest (inputs ++ [input]) log =
  (let '(now, user, text) := input in
   addChatMessage now user text (ingest inputs log)).
Proof. unfold ingest. by rewrite foldl_snoc. Qed.

Lemma ingest_from_empty inputs :
  ingest inputs [] = drop (length inputs - MAX_MESSAGES) (messageOf <$> inputs).
Proof.
  induction inputs as [|[[now user] text] inputs IH] using rev_ind; [done|].
  rewrite ingest_snoc, IH, fmap_app, length_app. simpl.
  unfold addChatMessage.
  set (all := messageOf <$> inputs).
  assert (Hlen : length all = length inputs) by apply length_fmap.
  rewrite length_app, length_drop, Hlen. simpl.
  unfold MAX_MESSAGES in *.
  destruct (100 <? _)%nat eqn:Hcmp.
  - apply Nat.ltb_lt in Hcmp. unfold shift.
    rewrite drop_app_le by (rewrite length_drop; lia).
    rewrite drop_drop.
    rewrite (drop_app_le all) by lia.
    do 2 f_equal. lia.
  - apply Nat.ltb_ge in Hcmp.
    rewrite (drop_app_le all) by lia.
    do 2 f_equal. lia.
Qed.

(** One append removes nothing, or exactly the oldest message, and the
    latter exactly when the log was full. *)
Lemma addChatMessage_evicts_oldest now user text log :
  ∃ evicted,
    evicted ++ addChatMessage now user text log
    = log ++ [mkChatMessage user text now]
    ∧ evicted = (if decide (length log < 100)%nat then [] else take 1 log).
Proof.
  unfold addChatMessage, MAX_MESSAGES, shift. rewrite length_app. simpl.
  case_decide as Hlen.
  - exists []. split; [|done].
    by destruct (100 <? _)%nat eqn:E; [apply Nat.ltb_lt in E; lia|].
  - exists (take 1 log). split; [|done].
    destruct (100 <? _)%nat eqn:E; [|apply Nat.ltb_ge in E; lia].
    destruct log as [|m log]; [simpl in *; lia|]. done.
Qed.

(** Claim C2.  Starting from the empty log, after [N] calls of
    [addChatMessage] the log holds the last [min N 100] messages in the
    order of their insertion, and each call removes at most the oldest
    message, doing so exactly when the log already held 100. *)
Theorem addChatMessage_retains_most_recent (inputs : list (Z * string * string)) :
  ingest inputs [] = drop (length inputs - 100) (messageOf <$> inputs)
  ∧ length (ingest inputs []) = (length inputs `min` 100)%nat
  ∧ ∀ now user text log,
      ∃ evicted,
        evicted ++ addChatMessage now user text log
        = log ++ [mkChatMessage user text now]
        ∧ evicted = (if decide (length log < 100)%nat then [] else take 1 log).
Proof.
  split_and!.
  - apply ingest_from_empty.
  - rewrite ingest_from_empty, length_drop, length_fmap. unfold MAX_MESSAGES. lia.
  - apply addChatMessage_evicts_oldest.
Qed.

End ChatLog.

(** ** [safeJsonStringify] *)

Section Json.

Lemma serialize_throws gap v : ∀ indent e,
  serialize gap indent v = SThrows e → e = bigIntError.
Proof.
  induction v as [| | | | | |items IH|fields IH] using JSValue_nested_ind;
    intros indent e; simpl; try discriminate.
  - by intros [= <-].
  - generalize (@nil string) as partial.
    induction IH as [|x items Hx _ IHitems]; intros partial; [discriminate|].
    destruct (serialize gap (indent +:+ gap) x) eqn:Hs; eauto.
    intros [= <-]. eauto.
  - generalize (@nil string) as partial.
    induction IH as [|[k x] fields Hx _ IHfields]; intros partial; [discriminate|].
    simpl in Hx.
    destruct (serialize gap (indent +:+ gap) x) eqn:Hs; eauto.
    intros [= <-]. eauto.
Qed.




End Json.

(** ** Keyword scoring *)

Section Scoring.
Local Open Scope nat_scope.
Implicit Types (S : list (string * nat)) (u v : string) (n k : nat).

Lemma assocLookup_bump_same u S : assocLookup u (bump u S) = Some (default 0 (assocLookup u S) + 1).
Proof.
  induction S as [|[v n] S IH]; simpl.
  - by rewrite String.eqb_refl.
  - destruct (String.eqb v u) eqn:E; simpl; rewrite E; [done|apply IH].
Qed.

Lemma assocLookup_bump_other u v S : u ≠ v → assocLookup v (bump u S) = assocLookup v S.
Proof.
  intros Hne. induction S as [|[w n] S IH]; simpl.
  - apply String.eqb_neq in Hne. by rewrite Hne.
  - destruct (String.eqb w u) eqn:E; simpl.
    + apply String.eqb_eq in E as ->.
      apply String.eqb_neq in Hne. by rewrite Hne.
    + by rewrite IH.
Qed.

Lemma assocLookup_iter_bump_same h u S :
  0 < h → assocLookup u (Nat.iter h (bump u) S) = Some (default 0 (assocLookup u S) + h).
Proof.
  induction h as [|h IH]; [lia|]. intros _. simpl.
  rewrite assocLookup_bump_same. destruct h as [|h].
  - done.
  - rewrite IH by lia. simpl. f_equal. lia.
Qed.

Lemma assocLookup_iter_bump_other h u v S :
  u ≠ v → assocLookup v (Nat.iter h (bump u) S) = assocLookup v S.
Proof.
  intros Hne. induction h as [|h IH]; [done|]. simpl.
  by rewrite assocLookup_bump_other.
Qed.

Lemma scanMessage_iter keywords S m :
  scanMessage keywords S m = Nat.iter (hits keywords m) (bump (username m)) S.
Proof.
  unfold scanMessage, hits. revert S.
  induction keywords as [|k ks IH]; intros S; [done|]. simpl.
  destruct (includes _ k); simpl; rewrite IH; [|done].
  by rewrite <- Nat.iter_succ_r.
Qed.

Lemma scanLog_snoc keywords log m :
  scanLog keywords (log ++ [m]) =
  Nat.iter (hits keywords m) (bump (username m)) (scanLog keywords log).
Proof. unfold scanLog. by rewrite foldl_snoc, scanMessage_iter. Qed.

Lemma score_snoc keywords log m user :
  score keywords (log ++ [m]) user =
  score keywords log user + (if String.eqb (username m) user then hits keywords m else 0).
Proof. unfold score. rewrite sum_list_with_app. simpl. lia. Qed.

(** The map holds, for each user, the number of keyword hits of that user's
    messages; users without a hit have no entry. *)
Lemma assocLookup_scanLog keywords log user :
  assocLookup user (scanLog keywords log) =
  (if decide (score keywords log user = 0) then None else Some (score keywords log user)).
Proof.
  induction log as [|m log IH] using rev_ind; [done|].
  rewrite scanLog_snoc, score_snoc.
  destruct (String.eqb (username m) user) eqn:E.
  - apply String.eqb_eq in E as <-.
    destruct (hits keywords m) as [|h] eqn:Hh.
    + simpl. rewrite IH. rewrite Nat.add_0_r. done.
    + rewrite assocLookup_iter_bump_same by lia. rewrite IH.
      repeat case_decide; simpl; try lia; f_equal; lia.
  - apply String.eqb_neq in E. rewrite assocLookup_iter_bump_other by done.
    rewrite IH, Nat.add_0_r. done.
Qed.


Lemma bump_fresh u S : u ∉ S.*1 → bump u S = S ++ [(u, 1)].
Proof.
  induction S as [|[v n] S IH]; simpl; [done|].
  rewrite not_elem_of_cons. intros [Hne Hnotin].
  assert (String.eqb v u = false) as -> by (apply String.eqb_neq; congruence).
  by rewrite IH.
Qed.

Lemma bump_keys u S :
  (bump u S).*1 = if decide (u ∈ S.*1) then S.*1 else S.*1 ++ [u].
Proof.
  induction S as [|[v n] S IH].
  - case_decide as Hin; [by apply elem_of_nil in Hin|done].
  - cbn [bump]. destruct (String.eqb v u) eqn:E.
    + apply String.eqb_eq in E as ->. clear IH.
      case_decide as Hin; [reflexivity|]. destruct Hin. apply elem_of_cons. by left.
    + apply String.eqb_neq in E. rewrite !fmap_cons, IH. cbn [fst].
      destruct (decide (u ∈ S.*1)) as [Hin|Hout].
      * case_decide as Hin'; [reflexivity|]. destruct Hin'. apply elem_of_cons. by right.
      * case_decide as Hin'; [|reflexivity].
        apply elem_of_cons in Hin' as [->|?]; done.
Qed.

Lemma bump_keys_present u v S : u ∈ S.*1 → u ∈ (bump v S).*1.
Proof.
  intros Hin. rewrite bump_keys. case_decide; [done|].
  apply elem_of_app. by left.
Qed.

Lemma bump_keys_NoDup u S : NoDup S.*1 → NoDup (bump u S).*1.
Proof.
  intros Hnd. rewrite bump_keys. case_decide; [done|].
  apply NoDup_app. split_and!; [done| |apply NoDup_singleton].
  intros x Hx Hx'. apply list_elem_of_singleton in Hx' as ->. done.
Qed.

Lemma iter_bump_keys_present h u v S : u ∈ S.*1 → u ∈ (Nat.iter h (bump v) S).*1.
Proof. induction h; simpl; auto using bump_keys_present. Qed.

Lemma iter_bump_keys_NoDup h u S : NoDup S.*1 → NoDup (Nat.iter h (bump u) S).*1.
Proof. induction h; simpl; auto using bump_keys_NoDup. Qed.

Lemma scanLog_keys_NoDup keywords log : NoDup (scanLog keywords log).*1.
Proof.
  induction log as [|m log IH] using rev_ind; [apply NoDup_nil_2|].
  rewrite scanLog_snoc. by apply iter_bump_keys_NoDup.
Qed.

Lemma assocLookup_of_entry u n S : NoDup S.*1 → (u, n) ∈ S → assocLookup u S = Some n.
Proof.
  induction S as [|[v k] S IH]; simpl; [by rewrite elem_of_nil|].
  rewrite NoDup_cons, elem_of_cons. intros [Hnotin Hnd] [Heq|Hin].
  - injection Heq as -> ->. by rewrite String.eqb_refl.
  - destruct (String.eqb v u) eqn:E; [|auto].
    apply String.eqb_eq in E as ->. destruct Hnotin.
    apply (list_elem_of_fmap_2 fst) in Hin. done.
Qed.

Lemma entriesBefore_snoc u n S : u ∉ S.*1 → entriesBefore u (S ++ [(u, n)]) = S.
Proof.
  induction S as [|[v k] S IH]; simpl.
  - by rewrite String.eqb_refl.
  - rewrite not_elem_of_cons. intros [Hne Hnotin].
    assert (String.eqb v u = false) as -> by (apply String.eqb_neq; congruence).
    by rewrite IH.
Qed.

Lemma entriesBefore_bump u v S :
  u ∈ S.*1 → (entriesBefore u (bump v S)).*1 = (entriesBefore u S).*1.
Proof.
  induction S as [|[w n] S IH]; simpl; [by rewrite elem_of_nil|].
  rewrite elem_of_cons. intros Hin.
  destruct (String.eqb w v) eqn:Ev; simpl.
  - by destruct (String.eqb w u).
  - destruct (String.eqb w u) eqn:Eu; [done|]. simpl. f_equal.
    apply IH. destruct Hin as [->|Hin]; [|done].
    by rewrite String.eqb_refl in Eu.
Qed.

Lemma entriesBefore_iter_bump h u v S :
  u ∈ S.*1 →
  (entriesBefore u (Nat.iter h (bump v) S)).*1 = (entriesBefore u S).*1.
Proof.
  intros Hin. induction h as [|h IH]; [done|]. simpl.
  rewrite entriesBefore_bump; [done|]. by apply iter_bump_keys_present.
Qed.

Lemma entriesBefore_subseteq u S : entriesBefore u S ⊆ S.
Proof.
  induction S as [|[v n] S IH]; simpl; [done|].
  destruct (String.eqb v u).
  - apply list_subseteq_nil.
  - intros e. rewrite !elem_of_cons. intros [->|He]; [by left|right; by apply IH].
Qed.


(** *** The sort *)

Lemma insertByScore_Permutation x S : insertByScore x S ≡ₚ x :: S.
Proof.
  induction S as [|y S IH]; simpl; [done|].
  destruct (x.2 <? y.2); [|done].
  rewrite IH. apply Permutation_swap.
Qed.

Lemma sortByScoreDesc_Permutation S : sortByScoreDesc S ≡ₚ S.
Proof.
  induction S as [|x S IH]; simpl; [done|].
  by rewrite insertByScore_Permutation, IH.
Qed.

Lemma insertByScore_descending x S :
  descending S → descending (insertByScore x S).
Proof.
  unfold descending. induction 1 as [|y S Hs IH Hall]; simpl.
  - repeat constructor.
  - destruct (x.2 <? y.2) eqn:E.
    + apply Nat.ltb_lt in E. constructor; [done|].
      rewrite insertByScore_Permutation. constructor; [lia|done].
    + apply Nat.ltb_ge in E. constructor; [by constructor|].
      constructor; [done|]. eapply Forall_impl; [done|]. simpl. lia.
Qed.

Lemma sortByScoreDesc_descending S : descending (sortByScoreDesc S).
Proof.
  induction S as [|x S IH]; simpl; [constructor|].
  by apply insertByScore_descending.
Qed.

(** Stability: entries of one score keep their order. *)
Lemma insertByScore_stable k x S :
  filter (λ e, e.2 = k) (insertByScore x S) = filter (λ e, e.2 = k) (x :: S).
Proof.
  induction S as [|y S IH]; simpl; [done|].
  destruct (x.2 <? y.2) eqn:E; [|done].
  apply Nat.ltb_lt in E.
  rewrite (filter_cons _ y), IH, !filter_cons.
  repeat case_decide; try done; lia.
Qed.

Lemma sortByScoreDesc_stable k S :
  filter (λ e, e.2 = k) (sortByScoreDesc S) = filter (λ e, e.2 = k) S.
Proof.
  induction S as [|x S IH]; simpl; [done|].
  by rewrite insertByScore_stable, !filter_cons, IH.
Qed.

Lemma head_insertByScore x S :
  head (insertByScore x S) =
  match head S with
  | Some y => if x.2 <? y.2 then Some y else Some x
  | None => Some x
  end.
Proof. destruct S as [|y S]; simpl; [done|]. by destruct (x.2 <? y.2). Qed.

(** The first entry after sorting is the earliest entry of highest score. *)
Lemma head_sortByScoreDesc u n S :
  assocLookup u S = Some n →
  Forall (λ e, e.2 < n) (entriesBefore u S) →
  Forall (λ e, e.2 ≤ n) S →
  head (sortByScoreDesc S) = Some (u, n).
Proof.
  induction S as [|[v k] S IH]; simpl; [done|].
  intros Hassoc Hbefore Hall. apply Forall_cons in Hall as [Hk Hall].
  rewrite head_insertByScore.
  destruct (String.eqb v u) eqn:E.
  - apply String.eqb_eq in E as ->. injection Hassoc as ->.
    destruct (head (sortByScoreDesc S)) as [y|] eqn:Hy; [|done].
    assert (y ∈ S) as Hin.
    { rewrite <- (sortByScoreDesc_Permutation S).
      destruct (sortByScoreDesc S); simplify_eq/=. apply elem_of_cons. by left. }
    rewrite Forall_forall in Hall. specialize (Hall y Hin). simpl.
    destruct (n <? y.2) eqn:E; [apply Nat.ltb_lt in E; lia|done].
  - apply Forall_cons in Hbefore as [Hlt Hbefore]. simpl in Hlt.
    rewrite IH by done. simpl.
    by destruct (k <? n) eqn:E'; [|apply Nat.ltb_ge in E'; lia].
Qed.

Lemma head_sortByScoreDesc_max S e :
  head (sortByScoreDesc S) = Some e → e ∈ S ∧ Forall (λ x, x.2 ≤ e.2) S.
Proof.
  intros He.
  pose proof (sortByScoreDesc_Permutation S) as Hperm.
  pose proof (sortByScoreDesc_descending S) as Hdesc.
  destruct (sortByScoreDesc S) as [|e' S']; simplify_eq/=.
  rewrite <- Hperm. split; [apply elem_of_cons; by left|].
  apply StronglySorted_inv in Hdesc as [_ Hall].
  constructor; [done|]. done.
Qed.

(** *** The scan over the log *)

Lemma score_pos_witness keywords log u :
  0 < score keywords log u →
  ∃ m, m ∈ log ∧ username m = u ∧ 0 < hits keywords m.
Proof.
  induction log as [|m log IH] using rev_ind; [unfold score; simpl; lia|].
  rewrite score_snoc. intros Hpos.
  destruct (decide (0 < score keywords log u)) as [Hlog|Hlog].
  - destruct (IH Hlog) as (m' & Hin & Hu & Hh). exists m'.
    split; [apply elem_of_app; by left|done].
  - destruct (String.eqb (username m) u) eqn:E; [|lia].
    apply String.eqb_eq in E. exists m.
    split; [apply elem_of_app; right; by apply list_elem_of_singleton|].
    split; [done|lia].
Qed.

Lemma score_zero keywords log u :
  Forall (λ m, username m = u → hits keywords m = 0) log →
  score keywords log u = 0.
Proof.
  induction 1 as [|m log Hm _ IH]; [done|].
  unfold score in *. simpl. rewrite IH.
  destruct (String.eqb (username m) u) eqn:E; [|done].
  apply String.eqb_eq in E. rewrite Hm; done.
Qed.

Lemma score_app keywords pre post u :
  score keywords (pre ++ post) u = score keywords pre u + score keywords post u.
Proof. unfold score. by rewrite sum_list_with_app. Qed.

Lemma scanLog_entry keywords log v k :
  (v, k) ∈ scanLog keywords log → k = score keywords log v ∧ 0 < k.
Proof.
  intros Hin.
  apply assocLookup_of_entry in Hin; [|apply scanLog_keys_NoDup].
  rewrite assocLookup_scanLog in Hin. case_decide; simplify_eq. lia.
Qed.

Lemma scanLog_app keywords pre post :
  scanLog keywords (pre ++ post) = foldl (scanMessage keywords) (scanLog keywords pre) post.
Proof. unfold scanLog. by rewrite foldl_app. Qed.

Lemma scanLog_key_present keywords log u :
  u ∈ (scanLog keywords log).*1 ↔ 0 < score keywords log u.
Proof.
  split.
  - intros ([v k] & -> & Hin)%list_elem_of_fmap. simpl.
    apply scanLog_entry in Hin. lia.
  - intros Hpos. pose proof (assocLookup_scanLog keywords log u) as Hl.
    rewrite decide_False in Hl by lia.
    clear Hpos. induction (scanLog keywords log) as [|[v k] S IH]; [done|].
    simpl in Hl. destruct (String.eqb v u) eqn:E.
    + apply String.eqb_eq in E as ->. apply elem_of_cons. by left.
    + apply elem_of_cons. right. auto.
Qed.

(** Once a user has an entry, later messages leave the entries in front of
    it in place. *)
Lemma entriesBefore_foldl keywords u S post :
  u ∈ S.*1 →
  (entriesBefore u (foldl (scanMessage keywords) S post)).*1 = (entriesBefore u S).*1
  ∧ u ∈ (foldl (scanMessage keywords) S post).*1.
Proof.
  revert S. induction post as [|m post IH]; intros S Hin; [done|]. simpl.
  rewrite scanMessage_iter.
  destruct (IH (Nat.iter (hits keywords m) (bump (username m)) S)) as [-> ?].
  - by apply iter_bump_keys_present.
  - split; [|done]. by apply entriesBefore_iter_bump.
Qed.

Lemma entriesBefore_scanLog keywords pre m post :
  score keywords pre (username m) = 0 →
  0 < hits keywords m →
  (entriesBefore (username m) (scanLog keywords (pre ++ m :: post))).*1
  = (scanLog keywords pre).*1.
Proof.
  intros Hzero Hhit.
  assert (username m ∉ (scanLog keywords pre).*1) as Hfresh.
  { rewrite scanLog_key_present. lia. }
  rewrite (scanLog_app _ pre (m :: post)). simpl. rewrite scanMessage_iter.
  destruct (hits keywords m) as [|h]; [lia|].
  rewrite Nat.iter_succ_r, bump_fresh by done.
  assert (username m ∈ (scanLog keywords pre ++ [(username m, 1)]).*1) as Hin.
  { rewrite fmap_app. apply elem_of_app. right. by apply list_elem_of_singleton. }
  destruct (entriesBefore_foldl keywords (username m)
              (Nat.iter h (bump (username m)) (scanLog keywords pre ++ [(username m, 1)]))
              post) as [-> _].
  - by apply iter_bump_keys_present.
  - rewrite entriesBefore_iter_bump by done.
    by rewrite entriesBefore_snoc.
Qed.

(** The descriptor scan on an iterable keyword list: the winner is the
    author of the earliest keyword-matching message among the users of
    highest score. *)
Lemma findUser_earliest_top keywords log i winner :
  log !! i = Some winner →
  0 < hits keywords winner →
  Forall (λ m, score keywords log (username m) ≤ score keywords log (username winner)) log →
  Forall (λ other, hits keywords other = 0
                   ∨ score keywords log (username other) < score keywords log (username winner))
         (take i log) →
  head (sortByScoreDesc (scanLog keywords log))
  = Some (username winner, score keywords log (username winner)).
Proof.
  intros Hi Hhit Hmax Hbefore.
  set (u := username winner). set (n := score keywords log u).
  assert (log = take i log ++ winner :: drop (Datatypes.S i) log) as Hsplit
    by (by rewrite take_drop_middle).
  assert (winner ∈ log) as Hwin by (by eapply list_elem_of_lookup_2).
  assert (0 < n) as Hn.
  { unfold n. rewrite Hsplit, score_app. unfold score at 2. simpl.
    unfold u. rewrite String.eqb_refl. lia. }
  assert (score keywords (take i log) u = 0) as Hzero.
  { apply score_zero. eapply Forall_impl; [exact Hbefore|].
    intros other [H0|Hlt] Hu; [done|]. simpl in Hlt. rewrite Hu in Hlt. fold u in Hlt. lia. }
  apply head_sortByScoreDesc.
  - rewrite assocLookup_scanLog. fold n. rewrite decide_False by lia. done.
  - apply Forall_forall. intros [v k] Hin. simpl.
    pose proof (entriesBefore_subseteq u _ _ Hin) as Hin'.
    apply scanLog_entry in Hin' as [-> _].
    apply (list_elem_of_fmap_2 fst) in Hin. simpl in Hin.
    rewrite Hsplit in Hin at 1. unfold u in Hin.
    rewrite entriesBefore_scanLog in Hin by done.
    apply scanLog_key_present, score_pos_witness in Hin as (m & Hm & <- & Hh).
    rewrite Forall_forall in Hbefore. destruct (Hbefore m Hm) as [?|?]; [lia|done].
  - apply Forall_forall. intros [v k] Hin. simpl.
    apply scanLog_entry in Hin as [-> Hpos].
    apply score_pos_witness in Hpos as (m & Hm & <- & _).
    rewrite Forall_forall in Hmax. by apply Hmax.
Qed.

End Scoring.

(** ** Descriptor resolution *)

Section Descriptor.
Local Open Scope nat_scope.

Lemma findUserByDescriptor_scan log descriptor keywords :
  keywordsFor descriptor = Keywords keywords →
  findUserByDescriptor log descriptor
  = Returned (fst <$> head (sortByScoreDesc (scanLog keywords log))).
Proof.
  unfold findUserByDescriptor, scanLog. intros ->.
  by destruct (sortByScoreDesc _) as [|[u n] rest].
Qed.

Lemma entry_of_assocLookup {A} u (x : A) (S : list (string * A)) :
  assocLookup u S = Some x → (u, x) ∈ S.
Proof.
  induction S as [|[v y] S IH]; simpl; [done|].
  destruct (String.eqb v u) eqn:E.
  - apply String.eqb_eq in E as ->. intros [= ->]. apply elem_of_cons. by left.
  - intros H. apply elem_of_cons. right. auto.
Qed.

(** The scan returns a user of highest score, and nobody exactly when no
    message matches a keyword. *)
Lemma findUserByDescriptor_top log descriptor keywords :
  keywordsFor descriptor = Keywords keywords →
  match findUserByDescriptor log descriptor with
  | Returned (Some user) =>
      0 < score keywords log user
      ∧ ∀ other, score keywords log other ≤ score keywords log user
  | Returned None => ∀ user, score keywords log user = 0
  | Threw _ => False
  end.
Proof.
  intros Hk. rewrite (findUserByDescriptor_scan _ _ _ Hk).
  destruct (head (sortByScoreDesc (scanLog keywords log))) as [[u n]|] eqn:Hhead; simpl.
  - apply head_sortByScoreDesc_max in Hhead as [Hin Hall]. simpl in Hall.
    apply scanLog_entry in Hin as [-> Hpos]. split; [done|].
    intros other. destruct (decide (score keywords log other = 0)) as [->|Hne]; [lia|].
    pose proof (assocLookup_scanLog keywords log other) as Hl.
    rewrite decide_False in Hl by done.
    apply entry_of_assocLookup in Hl. rewrite Forall_forall in Hall.
    by apply (Hall _ Hl).
  - intros user.
    assert (scanLog keywords log = []) as Hnil.
    { apply Permutation_nil_r.
      rewrite <- (sortByScoreDesc_Permutation (scanLog keywords log)).
      by destruct (sortByScoreDesc (scanLog keywords log)). }
    pose proof (assocLookup_scanLog keywords log user) as Hl.
    rewrite Hnil in Hl. simpl in Hl. by case_decide.
Qed.

Lemma resolve_descriptor_none log input :
  isUsernameShape (trim input) = false →
  includes (toLowerCase input) "user named" = false →
  resolveModerationTarget log input = None.
Proof.
  intros Hshape Hnamed. unfold resolveModerationTarget.
  rewrite Hshape, Hnamed. by destruct (isEmpty (trim input)).
Qed.

(** Claim C3.  In [findUserByDescriptor], when the descriptor has an
    iterable keyword list and message [i] of the log matches a keyword, its
    author has the highest score, and every matching message in front of it
    is by a user of strictly lower score, the function returns the author of
    message [i]: among users tied for the highest score the one whose
    matching message comes first in the log wins.  (The [Map] is iterated in
    insertion order and the sort is stable.) *)
Theorem findUserByDescriptor_tie_earliest log descriptor keywords i winner :
  keywordsFor descriptor = Keywords keywords →
  log !! i = Some winner →
  0 < hits keywords winner →
  Forall (λ m, score keywords log (username m)
               ≤ score keywords log (username winner)) log →
  Forall (λ other, hits keywords other = 0
                   ∨ score keywords log (username other)
                     < score keywords log (username winner))
         (take i log) →
  findUserByDescriptor log descriptor = Returned (Some (username winner)).
Proof.
  intros Hk Hi Hhit Hmax Hbefore.
  rewrite (findUserByDescriptor_scan _ _ _ Hk).
  by rewrite (findUser_earliest_top keywords log i winner).
Qed.

Lemma findUserByDescriptor_tie_witness :
  findUserByDescriptor tieFixture "toxic" = Returned (Some "bob").
Proof.
  apply (findUserByDescriptor_tie_earliest tieFixture "toxic" _ 1
           (mkChatMessage "bob" "you are trash" 1) eq_refl eq_refl).
  - vm_compute. lia.
  - unfold tieFixture. repeat (apply Forall_cons_2; [vm_compute; lia|]).
    apply Forall_nil_2.
  - change (take 1 tieFixture) with [mkChatMessage "carol" "hello all" 0].
    apply Forall_cons_2; [left; by vm_compute|apply Forall_nil_2].
Defined.

(** Claim C1, counterexample.  On the three-message log the resolver
    answers ["toxic"] itself for the input ["toxic"], and nothing for the
    descriptor ["so dumb"], which the keyword scan attributes to alice. *)
Lemma resolver_skips_keyword_scan :
  resolveModerationTarget fixture "toxic" = Some "toxic"
  ∧ resolveModerationTarget fixture "so dumb" = None
  ∧ findUserByDescriptor fixture "so dumb" = Returned (Some "alice").
Proof. by vm_compute. Qed.

(** Claim C1, as amended.  An input that has neither the shape of a user
    name nor the words "user named" resolves to nothing: the resolver does
    not consult the keyword scan.  The scan itself, [findUserByDescriptor],
    takes the keyword list of the descriptor (the descriptor alone when the
    table has no entry), gives a user one point for every keyword occurring
    in the lower-cased text of each of that user's messages, and returns a
    user of highest score, or nothing when no message matches; on the
    three-message log it returns alice for ["toxic"]. *)
Theorem descriptor_resolution_as_coded :
  (∀ log input,
     isUsernameShape (trim input) = false →
     includes (toLowerCase input) "user named" = false →
     resolveModerationTarget log input = None)
  ∧ (∀ descriptor,
       DESCRIPTOR_KEYWORDS (toLowerCase descriptor) = None →
       keywordsFor descriptor = Keywords [descriptor])
  ∧ (∀ log descriptor keywords,
       keywordsFor descriptor = Keywords keywords →
       match findUserByDescriptor log descriptor with
       | Returned (Some user) =>
           0 < score keywords log user
           ∧ ∀ other, score keywords log other ≤ score keywords log user
       | Returned None => ∀ user, score keywords log user = 0
       | Threw _ => False
       end)
  ∧ findUserByDescriptor fixture "toxic" = Returned (Some "alice")
  ∧ (∃ keywords, keywordsFor "toxic" = Keywords keywords
                 ∧ score keywords fixture "alice" = 2
                 ∧ score keywords fixture "bob" = 1).
Proof.
  split_and!.
  - apply resolve_descriptor_none.
  - intros descriptor H. unfold keywordsFor. by rewrite H.
  - apply findUserByDescriptor_top.
  - by vm_compute.
  - eexists. split; [reflexivity|]. by vm_compute.
Qed.

Lemma descriptor_resolution_witness :
  resolveModerationTarget fixture "so dumb" = None
  ∧ keywordsFor "so dumb" = Keywords ["so dumb"].
Proof.
  destruct descriptor_resolution_as_coded as (Hnone & Hfallback & _).
  split.
  - apply Hnone; reflexivity.
  - apply Hfallback. reflexivity.
Defined.

End Descriptor.

(** ** Literal user names *)

Section Literal.

Lemma wordChar_plain c :
  isWordChar c = true → isWhiteSpace c = false ∧ isLineTerminator c = false.
Proof. destruct c as [[] [] [] [] [] [] [] []]; by vm_compute. Qed.

Lemma trimStart_word s : allChars isWordChar s = true → trimStart s = s.
Proof.
  destruct s as [|c s]; simpl; [done|].
  intros [Hc _]%andb_true_iff. by destruct (wordChar_plain c Hc) as [-> _].
Qed.

Lemma trimEnd_word s : allChars isWordChar s = true → trimEnd s = s.
Proof.
  induction s as [|c s IH]; simpl; [done|].
  intros [Hc Hs]%andb_true_iff. rewrite IH by done.
  destruct s; [|done]. by destruct (wordChar_plain c Hc) as [-> _].
Qed.

Lemma trim_word s : allChars isWordChar s = true → trim s = s.
Proof. intros H. unfold trim. by rewrite trimStart_word, trimEnd_word. Qed.

Lemma userNamedAt_word s : allChars isWordChar s = true → userNamedAt s = None.
Proof.
  intros Hs. unfold userNamedAt.
  destruct (startsWith "user named" s) eqn:E; [|done].
  apply startsWith_spec in E as [t ->]. by vm_compute in Hs.
Qed.

Lemma matchUserNamed_word s : allChars isWordChar s = true → matchUserNamed s = None.
Proof.
  induction s as [|c s IH]; [done|].
  intros Hs. pose proof Hs as [Hc Hs']%andb_true_iff.
  cbn [matchUserNamed]. rewrite IH, (userNamedAt_word _ Hs) by done.
  by destruct (isLineTerminator c).
Qed.

Lemma replaceUserNamed_word s : allChars isWordChar s = true → replaceUserNamed s = s.
Proof.
  induction s as [|c s IH]; [done|].
  intros Hs. pose proof Hs as [Hc Hs']%andb_true_iff.
  cbn [replaceUserNamed]. rewrite (matchUserNamed_word _ Hs). by rewrite IH.
Qed.

Lemma includes_empty_hay needle : includes EmptyString needle = true → needle = EmptyString.
Proof. destruct needle; [done|]. by vm_compute. Qed.

Lemma toLowerCase_empty s : toLowerCase s = EmptyString → s = EmptyString.
Proof. by destruct s. Qed.

(** Whoever [find] returns for a non-empty candidate has a non-empty name. *)
Lemma found_or_candidate log candidate :
  candidate ≠ EmptyString →
  match List.find (λ m, includes (toLowerCase (username m)) (toLowerCase candidate)) log with
  | Some m => Some (if isEmpty (username m) then candidate else username m)
  | None => Some candidate
  end = Some (canonical log candidate).
Proof.
  intros Hne. unfold canonical.
  destruct (List.find _ log) as [m|] eqn:Hfind; [|done]. simpl.
  apply find_some in Hfind as [_ Hinc].
  destruct (username m); [|done].
  apply includes_empty_hay, toLowerCase_empty in Hinc. done.
Qed.

(** Property X8.  An input that is a bare user name (3 to 25 letters, digits
    or underscores) resolves to the first buffered user name that contains
    it, letter case aside, and to the input itself when no buffered name
    does. *)
Lemma resolveModerationTarget_literal log input :
  isUsernameShape input = true →
  resolveModerationTarget log input = Some (canonical log input).
Proof.
  intros Hshape. pose proof Hshape as [[Hword Hmin]%andb_true_iff _]%andb_true_iff.
  unfold resolveModerationTarget.
  rewrite (trim_word _ Hword), Hshape, orb_true_r, (replaceUserNamed_word _ Hword),
    (trim_word _ Hword).
  assert (input ≠ EmptyString) as Hne by (intros ->; done).
  destruct input; [done|]. cbn [isEmpty]. by apply found_or_candidate.
Qed.

Lemma replaceUserNamed_matched s rest :
  matchUserNamed s = Some rest → replaceUserNamed s = rest.
Proof. intros H. destruct s; cbn [replaceUserNamed]; by rewrite H. Qed.

Lemma matchUserNamed_phrase before name :
  allChars (λ c, negb (isLineTerminator c)) before = true →
  allChars isWordChar name = true →
  matchUserNamed (before +:+ "user named " +:+ name) = Some name.
Proof.
  intros Hbefore Hname.
  induction before as [|c before IH].
  - change (EmptyString +:+ "user named " +:+ name)
      with (String "u" (String "s" (String "e" (String "r" (String " "
             (String "n" (String "a" (String "m" (String "e" (String "d"
             (String " " name)))))))))))%char.
    cbn [matchUserNamed]. rewrite (matchUserNamed_word _ Hname).
    vm_compute isLineTerminator. cbn. by rewrite trimStart_word.
  - apply andb_true_iff in Hbefore as [Hc Hbefore].
    rewrite append_cons. cbn [matchUserNamed].
    apply negb_true_iff in Hc. rewrite Hc, IH; done.
Qed.

Lemma trim_nonempty before c after :
  isWhiteSpace c = false → trim (before +:+ String c after) ≠ EmptyString.
Proof.
  intros Hc. unfold trim.
  assert (∃ d t, trimStart (before +:+ String c after) = String d t ∧ isWhiteSpace d = false)
    as (d & t & -> & Hd).
  { induction before as [|x before IH].
    - exists c, after. simpl. by rewrite Hc.
    - rewrite append_cons. simpl. destruct (isWhiteSpace x) eqn:Hx; eauto. }
  simpl. destruct (trimEnd t); [by rewrite Hd|done].
Qed.

(** Property X9.  An input that ends, on one line, with the lower-case
    phrase "user named " and a name resolves like that name alone: to the
    first buffered user name that contains it, else to the name. *)
Lemma resolveModerationTarget_user_named log before name :
  allChars (λ c, negb (isLineTerminator c)) before = true →
  allChars isWordChar name = true →
  name ≠ EmptyString →
  resolveModerationTarget log (before +:+ "user named " +:+ name)
  = Some (canonical log name).
Proof.
  intros Hbefore Hname Hne. unfold resolveModerationTarget.
  set (input := before +:+ "user named " +:+ name).
  assert (isEmpty (trim input) = false) as ->.
  { pose proof (trim_nonempty before "u" ("ser named " +:+ name) eq_refl) as H.
    change (before +:+ String "u" ("ser named " +:+ name)) with input in H.
    by destruct (trim input). }
  assert (includes (toLowerCase input) "user named" = true) as ->.
  { apply includes_spec. exists (toLowerCase before), (" " +:+ toLowerCase name).
    unfold input. by rewrite !toLowerCase_app. }
  cbn [orb].
  assert (replaceUserNamed input = name) as ->.
  { by apply replaceUserNamed_matched, matchUserNamed_phrase. }
  rewrite (trim_word _ Hname). by apply found_or_candidate.
Qed.

(** Claim C8, at the failing input.  The phrase is detected without regard
    to case but cut out by a case-sensitive expression: for an input that
    opens with a capital, "User named bob123", the whole input is taken as
    the candidate and, no buffered name containing it, is returned as the
    user name.  The same phrase in lower case resolves to bob123. *)
Theorem resolveModerationTarget_capitalised_phrase :
  (∀ log, resolveModerationTarget log "User named bob123"
          = Some (canonical log "User named bob123"))
  ∧ resolveModerationTarget [mkChatMessage "bob123" "hi" 0] "User named bob123"
    = Some "User named bob123"
  ∧ resolveModerationTarget [mkChatMessage "bob123" "hi" 0] "user named bob123"
    = Some "bob123".
Proof.
  split_and!; [|by vm_compute..].
  intros log. unfold resolveModerationTarget.
  change (trim (replaceUserNamed "User named bob123")) with "User named bob123".
  change (isEmpty (trim "User named bob123")) with false.
  change (includes (toLowerCase "User named bob123") "user named") with true.
  cbn [orb]. by apply found_or_candidate.
Qed.

End Literal.

(** ** Outcomes of computations *)

Section Outcomes.
Context {A B : Type}.
Implicit Types (Q : A → Prop) (E : JSValue → Prop).

Lemma outcomes_ret (a : A) Q E : Q a → outcomes (mret a) Q E.
Proof. intros Ha env st. exact Ha. Qed.

Lemma outcomes_throw (e : JSValue) Q E : E e → outcomes (throw e) Q E.
Proof. intros He env st. exact He. Qed.

Lemma outcomes_lift (o : Outcome A) Q E : pureOutcome o Q E → outcomes (lift o) Q E.
Proof. intros Ho env st. exact Ho. Qed.

Lemma outcomes_gets (f : State → A) Q E : (∀ st, Q (f st)) → outcomes (gets f) Q E.
Proof. intros Hf env st. apply Hf. Qed.

Lemma outcomes_bind (m : M A) (f : A → M B) Q (R : B → Prop) E :
  outcomes m Q E → (∀ a, Q a → outcomes (f a) R E) → outcomes (m ≫= f) R E.
Proof.
  intros Hm Hf env st. specialize (Hm env st).
  unfold mbind, M_bind. destruct (m env st) as [[a|e] st']; simpl in *.
  - by apply Hf.
  - done.
Qed.

Lemma outcomes_tryCatch (m : M A) (h : JSValue → M A) Q E E' :
  outcomes m Q E' → (∀ e, E' e → outcomes (h e) Q E) → outcomes (tryCatch m h) Q E.
Proof.
  intros Hm Hh env st. specialize (Hm env st).
  unfold tryCatch. destruct (m env st) as [[a|e] st']; simpl in *.
  - done.
  - by apply Hh.
Qed.

Lemma outcomes_weaken (m : M A) Q Q' E E' :
  outcomes m Q E → (∀ a, Q a → Q' a) → (∀ e, E e → E' e) → outcomes m Q' E'.
Proof.
  intros Hm HQ HE env st. specialize (Hm env st).
  destruct (m env st).1; auto.
Qed.

End Outcomes.

Section Collaborators.

Lemma getProp_outcome v k : pureOutcome (getProp v k) (λ _, notNullish v) notNullish.
Proof. by destruct v. Qed.

Lemma getIndex_outcome v i : pureOutcome (getIndex v i) anyValue notNullish.
Proof. by destruct v. Qed.

Lemma resolveModerationTargetAny_outcome log v :
  pureOutcome (resolveModerationTargetAny log v) anyValue notNullish.
Proof. by destruct v. Qed.

Lemma guessTimeoutDurationAny_outcome v :
  pureOutcome (guessTimeoutDurationAny v) anyValue notNullish.
Proof. by destruct v. Qed.

Lemma splitTitles_outcome field v :
  pureOutcome (splitTitles field v) anyValue notNullish.
Proof. by destruct v. Qed.

Lemma rejectionValue_notNullish r : notNullish (rejectionValue r).
Proof. by destruct r. Qed.

Lemma tmiClient_say_outcomes channel message :
  outcomes (tmiClient_say channel message) anyValue notNullish.
Proof.
  intros env st. unfold tmiClient_say.
  destruct (tmiSay _ _ _ _); simpl; [apply rejectionValue_notNullish|done].
Qed.

Lemma ensureIrcConnection_outcomes :
  outcomes ensureIrcConnection anyValue never.
Proof.
  intros env st. unfold ensureIrcConnection, tryCatch, tmiClient_connect,
    mbind, M_bind, gets, setIrcConnected, mret, M_ret.
  destruct (ircConnected st); simpl; [done|].
  by destruct (tmiConnect _ _).
Qed.

Lemma addChatMessageM_outcomes user text :
  outcomes (addChatMessageM user text) anyValue never.
Proof. by intros env st. Qed.

(** The wrapper throws only error objects: what it catches is thrown again
    only after its [error] property has been read. *)
Lemma makeTwitchApiCall_outcomes config endpoint method body :
  outcomes (makeTwitchApiCall config endpoint method body) anyValue notNullish.
Proof.
  unfold makeTwitchApiCall.
  eapply outcomes_tryCatch with (E' := anyValue).
  - intros env st. by destruct (_.1).
  - intros error _.
    eapply outcomes_bind; [apply outcomes_lift, getProp_outcome|].
    intros tag Herror. destruct (truthy tag).
    + by apply outcomes_throw.
    + eapply outcomes_bind; [apply outcomes_lift, getProp_outcome|].
      intros message _. by apply outcomes_throw.
Qed.

Lemma getUserIdFromUsername_outcomes config user :
  outcomes (getUserIdFromUsername config user) anyValue never.
Proof.
  unfold getUserIdFromUsername.
  eapply outcomes_tryCatch with (E' := anyValue).
  - intros env st. by destruct (_.1).
  - intros e _. by apply outcomes_ret.
Qed.

End Collaborators.

Create HintDb outcomes.

(** ** The executor never throws *)

Section Executor.

Lemma outcomes_lift_any {A} (o : Outcome A) :
  pureOutcome o anyValue notNullish → outcomes (lift o) anyValue notNullish.
Proof. apply outcomes_lift. Qed.

Lemma outcomes_lift_getProp v k :
  outcomes (lift (getProp v k)) anyValue notNullish.
Proof. apply outcomes_lift. by destruct v. Qed.

Lemma outcomes_never_notNullish {A} (m : M A) :
  outcomes m anyValue never → outcomes m anyValue notNullish.
Proof. intros H. eapply outcomes_weaken; [exact H|done|intros ? []]. Qed.

Local Hint Resolve outcomes_lift_getProp makeTwitchApiCall_outcomes
  tmiClient_say_outcomes : outcomes.
Local Hint Extern 1 (outcomes (lift _) anyValue notNullish) =>
  apply outcomes_lift_any;
  first [apply resolveModerationTargetAny_outcome
        |apply guessTimeoutDurationAny_outcome
        |apply splitTitles_outcome
        |apply getIndex_outcome] : outcomes.
Local Hint Extern 1 (outcomes _ anyValue notNullish) =>
  apply outcomes_never_notNullish;
  first [apply ensureIrcConnection_outcomes
        |apply addChatMessageM_outcomes
        |apply getUserIdFromUsername_outcomes] : outcomes.
Local Hint Extern 1 (outcomes (gets _) _ _) => by apply outcomes_gets : outcomes.
Local Hint Extern 1 (outcomes (mret _) anyValue _) => by apply outcomes_ret : outcomes.











Lemma mcpExecutor_unknown config toolName parameters env st :
  toolName ∉ recognizedTools →
  mcpExecutor config toolName parameters env st
  = (Returned (failure ("Unknown tool: " +:+ toolName)), st).
Proof.
  intros Hnot. unfold mcpExecutor.
  repeat match goal with
         | |- context [String.eqb toolName ?s] =>
             destruct (String.eqb toolName s) eqn:?E;
             [apply String.eqb_eq in E as ->; destruct Hnot;
              unfold recognizedTools;
              repeat first [apply list_elem_of_here | apply list_elem_of_further]
             |clear E]
         end.
  done.
Qed.







(** Claim C6, counterexample.  Each action name of the design document,
    passed to the executor, gets the unknown-tool failure. *)
Lemma mcpExecutor_rejects_spec_names :
  Forall (λ name,
            mcpExecutor sampleConfig name sampleParameters cooperative emptyState
            = (Returned (failure ("Unknown tool: " +:+ name)), emptyState))
         specActionNames.
Proof. repeat constructor. Qed.

Lemma recognized_canSucceed toolName :
  toolName ∈ recognizedTools → canSucceed toolName.
Proof.
  intros Hin. exists sampleConfig, sampleParameters, cooperative, emptyState.
  unfold recognizedTools in Hin.
  repeat (apply elem_of_cons in Hin as [->|Hin]; [by vm_compute|]).
  by apply elem_of_nil in Hin.
Qed.

(** Claim C6, as amended.  The executor has a case for exactly the names
    sendMessageToChat, timeoutUser, banUser, createTwitchPoll,
    createTwitchPrediction, createTwitchClip, updateStreamTitle and
    updateStreamCategory: called with one of them it runs the action of
    that name inside its [try], and these are the only names for which a
    call can report success. *)
Theorem mcpExecutor_recognized_names :
  dispatchTable.*1 = recognizedTools
  ∧ Forall (λ entry, ∀ config parameters,
              mcpExecutor config entry.1 parameters
              = tryCatch (entry.2 config parameters) executorCatch)
           dispatchTable
  ∧ (∀ toolName, toolName ∈ recognizedTools ↔ canSucceed toolName).
Proof.
  split; [done|]. split; [repeat constructor|].
  intros toolName. split; [apply recognized_canSucceed|].
  intros (config & parameters & env & st & Hok).
  destruct (decide (toolName ∈ recognizedTools)) as [|Hnot]; [done|].
  by rewrite mcpExecutor_unknown in Hok.
Qed.

End Executor.

(** ** Moderation through the tools and the executor *)

Section Moderation.

Lemma run_bind {A B} (m : M A) (f : A → M B) env st :
  (m ≫= f) env st =
  match m env st with
  | (Returned a, st') => f a env st'
  | (Threw e, st') => (Threw e, st')
  end.
Proof. reflexivity. Qed.

Lemma run_tryCatch {A} (m : M A) (h : JSValue → M A) env st :
  tryCatch m h env st =
  match m env st with
  | (Returned a, st') => (Returned a, st')
  | (Threw e, st') => h e env st'
  end.
Proof. reflexivity. Qed.

Lemma transforms_ret {A} (a : A) : transforms (mret a) id.
Proof. done. Qed.
Lemma transforms_throw {A} e : transforms (@throw A e) id.
Proof. done. Qed.
Lemma transforms_lift {A} (o : Outcome A) : transforms (lift o) id.
Proof. done. Qed.
Lemma transforms_gets {A} (f : State → A) : transforms (gets f) id.
Proof. done. Qed.
Lemma transforms_fetch request : transforms (fetch request) (record (EFetch request)).
Proof. done. Qed.

Lemma transforms_bind {A B} (m : M A) (k : A → M B) f :
  transforms m f → (∀ a, transforms (k a) id) → transforms (m ≫= k) f.
Proof.
  intros Hm Hk env st. rewrite run_bind. specialize (Hm env st).
  destruct (m env st) as [[a|e] st']; simpl in *; [|done].
  by rewrite Hk.
Qed.

Lemma transforms_tryCatch {A} (m : M A) (h : JSValue → M A) f :
  transforms m f → (∀ e, transforms (h e) id) → transforms (tryCatch m h) f.
Proof.
  intros Hm Hh env st. rewrite run_tryCatch. specialize (Hm env st).
  destruct (m env st) as [[a|e] st']; simpl in *; [done|].
  by rewrite Hh.
Qed.

Lemma transforms_if {A} (b : bool) (m1 m2 : M A) f :
  transforms m1 f → transforms m2 f → transforms (if b then m1 else m2) f.
Proof. by destruct b. Qed.

Ltac pure_steps :=
  repeat first
    [ apply transforms_ret | apply transforms_throw | apply transforms_lift
    | apply transforms_gets
    | apply transforms_if
    | apply transforms_bind; [|intros ?] ].

(** A call without a body makes exactly one request. *)
Lemma makeTwitchApiCall_state config endpoint method :
  transforms (makeTwitchApiCall config endpoint method None)
    (record (EFetch (mkFetchRequest ("https://api.twitch.tv/helix" +:+ endpoint) method
       [("Authorization", "Bearer " +:+ twitchAuthToken config);
        ("Client-Id", twitchClientId config);
        ("Content-Type", "application/json")] None))).
Proof.
  unfold makeTwitchApiCall. apply transforms_tryCatch.
  - change (mret None ≫= ?k) with (k None). cbv beta.
    apply transforms_bind; [apply transforms_fetch|]. intros response. pure_steps.
  - intros error. pure_steps.
Qed.

(** The id lookup makes exactly one call, the GET of the user. *)
Lemma getUserIdFromUsername_state config user :
  transforms (getUserIdFromUsername config user)
    (record (EFetch (lookupRequest config user))).
Proof.
  unfold getUserIdFromUsername. apply transforms_tryCatch.
  - apply transforms_bind; [apply makeTwitchApiCall_state|]. intros response. pure_steps.
  - intros e. pure_steps.
Qed.

Lemma exec_unresolved (withDuration : bool) config parameters env st :
  targetUnresolved config parameters env st →
  ∃ detail calls,
    tryCatch (if withDuration then exec_timeoutUser config parameters
              else exec_banUser config parameters)
      executorCatch env st
    = (Returned (failure detail),
       mkState (recentMessages st) (ircConnected st) (performed st ++ calls))
    ∧ isEmpty detail = false
    ∧ Forall lookupOnly calls.
Proof.
  intros [(t & Ht & Hnone)|(user & userId & st' & Ht & Hne & Hid & Hfalsy)];
    unfold targetUnresolved in *; cbv zeta in *.
  - exists "Could not resolve target user", [].
    split; [|done].
    rewrite run_tryCatch. destruct withDuration.
    all: unfold exec_timeoutUser, exec_banUser; rewrite run_bind; cbn [gets];
      rewrite run_bind; unfold lift at 1; rewrite Ht, Hnone; cbn.
    all: rewrite app_nil_r; by destruct st.
  - pose proof (getUserIdFromUsername_state config user env st) as Hst.
    rewrite Hid in Hst. simpl in Hst. subst st'.
    exists ("Could not resolve user ID for " +:+ user),
           [EFetch (lookupRequest config user)].
    split; [|split; [done|by repeat constructor]].
    rewrite run_tryCatch. destruct withDuration.
    all: unfold exec_timeoutUser, exec_banUser; rewrite run_bind; cbn [gets];
      rewrite run_bind; unfold lift at 1; rewrite Ht; cbn [noTarget]; rewrite Hne;
      cbv zeta; cbn [default from_option id]; rewrite run_bind, Hid, Hfalsy; cbn.
    all: done.
Qed.

(** Claim C9.  When a timeout or ban goes through [mcpExecutor] and the
    target has no platform identity (the resolver gives nothing, or the id
    lookup gives nothing for the resolved name), the executor returns,
    without throwing, a failure whose error detail is a non-empty text; the
    chat log is untouched and the only calls made are GET lookups, so no
    moderation request is sent. *)
Theorem mcpExecutor_unresolved_target_fails_soft config toolName parameters env st :
  toolName = "timeoutUser" ∨ toolName = "banUser" →
  targetUnresolved config parameters env st →
  ∃ detail calls,
    mcpExecutor config toolName parameters env st
    = (Returned (mkExecResult false JNull (Some (JStr detail))),
       mkState (recentMessages st) (ircConnected st) (performed st ++ calls))
    ∧ detail ≠ EmptyString
    ∧ Forall lookupOnly calls.
Proof.
  intros Htool Hun.
  destruct Htool as [-> | ->].
  - destruct (exec_unresolved true config parameters env st Hun)
      as (detail & calls & Hrun & Hne & Hcalls).
    exists detail, calls. split; [exact Hrun|]. split; [by intros ->|done].
  - destruct (exec_unresolved false config parameters env st Hun)
      as (detail & calls & Hrun & Hne & Hcalls).
    exists detail, calls. split; [exact Hrun|]. split; [by intros ->|done].
Qed.

Lemma mcpExecutor_unresolved_target_witness :
  ∃ detail calls,
    mcpExecutor sampleConfig "banUser" sampleParameters emptyDirectory emptyState
    = (Returned (mkExecResult false JNull (Some (JStr detail))),
       mkState [] false ([] ++ calls))
    ∧ detail ≠ EmptyString
    ∧ Forall lookupOnly calls.
Proof.
  apply (mcpExecutor_unresolved_target_fails_soft sampleConfig "banUser"
           sampleParameters emptyDirectory emptyState).
  - right. reflexivity.
  - right. exists "bob_1", JNull, (record (EFetch (lookupRequest sampleConfig "bob_1")) emptyState).
    vm_compute. repeat split; reflexivity.
Defined.

(** Claim C4.  When the argument of the [timeoutUser] or [banUser] tool
    resolves to no target, the tool replies with the fixed introduction
    followed by the last 20 messages of the log, one per line, and leaves
    the state as it was: no request is sent. *)
Theorem moderation_tools_fall_back_to_log config usernameOrDescriptor reason env st :
  noTarget (resolveModerationTarget (recentMessages st) usernameOrDescriptor) = true →
  let reply :=
    "No explicit username provided. Here are the last 20 chat messages:" +:+ LF
    +:+ join LF (formatMessage
                 <$> drop (length (recentMessages st) - 20) (recentMessages st)) in
  tool_timeoutUser config usernameOrDescriptor reason env st = (Returned reply, st)
  ∧ tool_banUser config usernameOrDescriptor reason env st = (Returned reply, st).
Proof.
  intros Hnone reply.
  unfold tool_timeoutUser, tool_banUser.
  rewrite !run_tryCatch, !run_bind. cbn [gets]. rewrite Hnone.
  rewrite !run_bind. cbn [gets]. done.
Qed.

Lemma moderation_tools_fall_back_witness :
  tool_timeoutUser sampleConfig "that toxic person" None cooperative
    (mkState fixture true [])
  = (Returned ("No explicit username provided. Here are the last 20 chat messages:"
               +:+ LF +:+ "alice: you're an idiot"
               +:+ LF +:+ "bob: idiot much?"
               +:+ LF +:+ "alice: so dumb"),
     mkState fixture true []).
Proof.
  apply (moderation_tools_fall_back_to_log sampleConfig "that toxic person" None
           cooperative (mkState fixture true [])).
  reflexivity.
Defined.

Lemma guessTimeoutDuration_families reason :
  let short := mentions reason "spam" ∨ mentions reason "caps"
               ∨ mentions reason "emote" in
  let medium := mentions reason "toxic" ∨ mentions reason "rude"
                ∨ mentions reason "mean" in
  let long := mentions reason "severe" ∨ mentions reason "serious" in
  (short → guessTimeoutDuration reason = 300)
  ∧ (¬ short → medium → guessTimeoutDuration reason = 1800)
  ∧ (¬ short → ¬ medium → long → guessTimeoutDuration reason = 3600)
  ∧ (¬ short → ¬ medium → ¬ long → guessTimeoutDuration reason = 600).
Proof.
  unfold mentions, guessTimeoutDuration. rewrite <- !includes_spec.
  repeat match goal with
         | |- context [includes ?h ?n] =>
             let b := fresh "b" in generalize (includes h n); intros b
         end.
  cbv zeta.
  repeat match goal with b : bool |- _ => destruct b end; simpl;
    intuition congruence.
Qed.

Lemma executor_timeout_uses_guess config parameters env st user userId st1
    reason response st2 :
  truthy (param parameters "duration") = false →
  resolveModerationTargetAny (recentMessages st)
    (param parameters "usernameOrDescriptor") = Returned (Some user) →
  isEmpty user = false →
  getUserIdFromUsername config user env st = (Returned userId, st1) →
  truthy userId = true →
  jsOr (param parameters "reason") (JStr EmptyString) = JStr reason →
  makeTwitchApiCall config "/moderation/bans" POST
    (Some (moderationBody config
             [("user_id", userId);
              ("reason", jsOr (param parameters "reason")
                              (JStr "Autonomous moderation"));
              ("duration", JNum (guessTimeoutDuration reason))])) env st1
    = (Returned response, st2) →
  mcpExecutor config "timeoutUser" parameters env st
  = (Returned (mkExecResult true
                 (JObj [("user", JStr user);
                        ("duration", JNum (guessTimeoutDuration reason));
                        ("reason", param parameters "reason")]) None), st2).
Proof.
  intros Hdur Htarget Hne Hid Htruthy Hreason Hcall.
  change (mcpExecutor config "timeoutUser" parameters)
    with (tryCatch (exec_timeoutUser config parameters) executorCatch).
  rewrite run_tryCatch. unfold exec_timeoutUser.
  rewrite run_bind. cbn [gets]. rewrite run_bind. unfold lift at 1.
  rewrite Htarget. cbn [noTarget]. rewrite Hne. cbv zeta. cbn [default from_option id].
  rewrite run_bind, Hid, Htruthy. cbn [negb].
  rewrite run_bind, Hdur, run_bind. unfold lift at 1. rewrite Hreason.
  cbn [guessTimeoutDurationAny]. cbn [mret M_ret].
  rewrite run_bind, Hcall. done.
Qed.

(** Claim C7.  [guessTimeoutDuration] tests the lower-cased reason for the
    keyword families in order: "spam", "caps" or "emote" give 300 seconds;
    otherwise "toxic", "rude" or "mean" give 1800; otherwise "severe" or
    "serious" give 3600; otherwise 600.  A keyword occurring in the reason
    as typed occurs in the lower-cased reason.  When the parameters of a
    timeout carry no (truthy) duration, the executor sends the moderation
    request with the duration guessed from the reason text (the empty text
    when there is none) and reports that duration. *)
Theorem timeout_duration_fallback :
  (∀ reason,
     let short := mentions reason "spam" ∨ mentions reason "caps"
                  ∨ mentions reason "emote" in
     let medium := mentions reason "toxic" ∨ mentions reason "rude"
                   ∨ mentions reason "mean" in
     let long := mentions reason "severe" ∨ mentions reason "serious" in
     (short → guessTimeoutDuration reason = 300)
     ∧ (¬ short → medium → guessTimeoutDuration reason = 1800)
     ∧ (¬ short → ¬ medium → long → guessTimeoutDuration reason = 3600)
     ∧ (¬ short → ¬ medium → ¬ long → guessTimeoutDuration reason = 600))
  ∧ (∀ reason keyword,
       keyword ∈ ["spam"; "caps"; "emote"; "toxic"; "rude"; "mean"; "severe"; "serious"] →
       occursIn keyword reason → mentions reason keyword)
  ∧ (∀ config parameters env st user userId st1 reason response st2,
       truthy (param parameters "duration") = false →
       resolveModerationTargetAny (recentMessages st)
         (param parameters "usernameOrDescriptor") = Returned (Some user) →
       isEmpty user = false →
       getUserIdFromUsername config user env st = (Returned userId, st1) →
       truthy userId = true →
       jsOr (param parameters "reason") (JStr EmptyString) = JStr reason →
       makeTwitchApiCall config "/moderation/bans" POST
         (Some (moderationBody config
                  [("user_id", userId);
                   ("reason", jsOr (param parameters "reason")
                                   (JStr "Autonomous moderation"));
                   ("duration", JNum (guessTimeoutDuration reason))])) env st1
         = (Returned response, st2) →
       mcpExecutor config "timeoutUser" parameters env st
       = (Returned (mkExecResult true
                      (JObj [("user", JStr user);
                             ("duration", JNum (guessTimeoutDuration reason));
                             ("reason", param parameters "reason")]) None), st2)).
Proof.
  split_and!.
  - apply guessTimeoutDuration_families.
  - intros reason keyword Hin. apply occursIn_mentions.
    repeat (apply elem_of_cons in Hin as [->|Hin]; [reflexivity|]).
    by apply elem_of_nil in Hin.
  - apply executor_timeout_uses_guess.
Qed.

Lemma timeout_duration_fallback_witness :
  guessTimeoutDuration "CAPS and spam, severe" = 300
  ∧ mcpExecutor sampleConfig "timeoutUser" (delete "duration" sampleParameters)
      cooperative emptyState
    = (Returned (mkExecResult true
                   (JObj [("user", JStr "bob_1"); ("duration", JNum 1800);
                          ("reason", JStr "rude")]) None),
       mkState [] false
         [EFetch (lookupRequest sampleConfig "bob_1");
          EFetch (mkFetchRequest "https://api.twitch.tv/helix/moderation/bans" POST
                    [("Authorization", "Bearer token"); ("Client-Id", "client");
                     ("Content-Type", "application/json")]
                    (Some ("{" +:+ quoteJSON "broadcaster_id" +:+ ":" +:+ quoteJSON "123"
                           +:+ "," +:+ quoteJSON "moderator_id" +:+ ":" +:+ quoteJSON "123"
                           +:+ "," +:+ quoteJSON "data" +:+ ":{"
                           +:+ quoteJSON "user_id" +:+ ":" +:+ quoteJSON "42"
                           +:+ "," +:+ quoteJSON "reason" +:+ ":" +:+ quoteJSON "rude"
                           +:+ "," +:+ quoteJSON "duration" +:+ ":1800}}")))]).
Proof.
  destruct timeout_duration_fallback as (Hfamilies & _ & Hexecutor).
  split.
  - apply (Hfamilies "CAPS and spam, severe"). left.
    exists "caps and ", ", severe". reflexivity.
  - refine (eq_trans
              (Hexecutor sampleConfig (delete "duration" sampleParameters)
                 cooperative emptyState "bob_1" (JStr "42")
                 (record (EFetch (lookupRequest sampleConfig "bob_1")) emptyState)
                 "rude" (JObj [("data", JArr [JObj [("id", JStr "42")]])])
                 _ _ _ _ _ _ _ _) _);
      [by vm_compute..|].
    vm_compute. reflexivity.
Defined.

End Moderation.

(** ** More of the server *)

Ltac unchanged_steps :=
  repeat first
    [ apply transforms_ret | apply transforms_throw | apply transforms_lift
    | apply transforms_gets
    | apply transforms_if
    | apply transforms_bind; [|intros ?] ].

(** ** The chat log and the listener *)

Section MoreChatLog.
Local Open Scope nat_scope.

(** Property X1.  The log never outgrows its capacity, and the newest
    message is always its last entry. *)
Theorem addChatMessage_within_capacity now user text log :
  length log ≤ 100 →
  length (addChatMessage now user text log) ≤ 100
  ∧ last (addChatMessage now user text log) = Some (mkChatMessage user text now).
Proof.
  intros Hlen. unfold addChatMessage, MAX_MESSAGES, shift.
  rewrite length_app. simpl.
  destruct (100 <? _) eqn:E.
  - apply Nat.ltb_lt in E. split.
    + rewrite length_drop, length_app. simpl. lia.
    + destruct log as [|m log]; [simpl in *; lia|].
      simpl. rewrite drop_0. apply last_snoc.
  - split; [|apply last_snoc].
    apply Nat.ltb_ge in E. rewrite length_app. simpl. lia.
Qed.

Lemma addChatMessage_within_capacity_witness :
  length (addChatMessage 7 "dave" "hi" fixture) ≤ 100
  ∧ last (addChatMessage 7 "dave" "hi" fixture) = Some (mkChatMessage "dave" "hi" 7).
Proof. apply addChatMessage_within_capacity. vm_compute. lia. Defined.

Lemma senderName_nonempty tags : senderName tags ≠ EmptyString.
Proof.
  unfold senderName, textOr.
  destruct (tagUsername tags) as [[|c u]|], (tagDisplayName tags) as [[|d n]|];
    simpl; congruence.
Qed.

(** Property X2.  The listener ignores the bot's own messages; any other
    message is appended under a sender name that is never empty: the user
    name when the tags carry a non-empty one, else the display name when
    that is non-empty, else "unknown". *)
Theorem onMessage_logs_named_senders now tags message log :
  onMessage now tags message true log = log
  ∧ last (onMessage now tags message false log)
    = Some (mkChatMessage (senderName tags) message now)
  ∧ senderName tags ≠ EmptyString
  ∧ (∀ c name display,
       senderName (mkTags (Some (String c name)) display) = String c name)
  ∧ (∀ c name, tagUsername tags = Some (String c name) →
               senderName tags = String c name)
  ∧ (tagUsername tags = None ∨ tagUsername tags = Some EmptyString →
     (∀ c name, tagDisplayName tags = Some (String c name) →
                senderName tags = String c name)
     ∧ (tagDisplayName tags = None ∨ tagDisplayName tags = Some EmptyString →
        senderName tags = "unknown")).
Proof.
  split_and!; [done| |apply senderName_nonempty|done| |].
  - unfold onMessage, addChatMessage, shift.
    destruct (_ <? _) eqn:E; [|apply last_snoc].
    destruct log as [|m log]; [discriminate E|]. simpl. rewrite drop_0. apply last_snoc.
  - intros c name Hname. unfold senderName. by rewrite Hname.
  - intros Hnone. unfold senderName. split.
    + intros c name Hdisplay. rewrite Hdisplay. by destruct Hnone as [-> | ->].
    + intros Habsent.
      by destruct Hnone as [-> | ->], Habsent as [-> | ->].
Qed.

Lemma onMessage_logs_named_senders_witness :
  last (onMessage 5 (mkTags (Some EmptyString) (Some "Dana")) "hello" false fixture)
  = Some (mkChatMessage "Dana" "hello" 5)
  ∧ last (onMessage 5 (mkTags None None) "hello" false fixture)
    = Some (mkChatMessage "unknown" "hello" 5).
Proof.
  split.
  - rewrite (proj1 (proj2 (onMessage_logs_named_senders 5
               (mkTags (Some EmptyString) (Some "Dana")) "hello" fixture))).
    by rewrite (proj1 (proj2 (proj2 (proj2 (proj2 (proj2
                  (onMessage_logs_named_senders 5
                     (mkTags (Some EmptyString) (Some "Dana")) "hello" fixture)))))
                  (or_intror eq_refl)) "D"%char "ana" eq_refl).
  - rewrite (proj1 (proj2 (onMessage_logs_named_senders 5
               (mkTags None None) "hello" fixture))).
    by rewrite (proj2 (proj2 (proj2 (proj2 (proj2 (proj2
                  (onMessage_logs_named_senders 5 (mkTags None None) "hello"
                     fixture)))))
                  (or_introl eq_refl)) (or_introl eq_refl)).
Defined.

(** Property X3.  [getRecentChatLog n] gives the last [n] lines of the
    formatted log, all of them when the log is shorter; for [n = 0] it gives
    the whole log rather than nothing. *)
Theorem getRecentChatLog_last_lines n log :
  (∃ older, formatMessage <$> log = older ++ getRecentChatLog n log)
  ∧ length (getRecentChatLog n log)
    = (if decide (n = 0) then length log else n `min` length log).
Proof.
  unfold getRecentChatLog, sliceLast. destruct n as [|n].
  - split; [by exists []|]. by rewrite length_fmap.
  - split.
    + exists (formatMessage <$> take (length log - S n) log).
      by rewrite <- fmap_app, take_drop.
    + rewrite length_fmap, length_drop. case_decide; lia.
Qed.

End MoreChatLog.

(** ** The keyword scan *)

Section MoreResolution.
Local Open Scope nat_scope.

Lemma toLowerCaseChar_idem c : toLowerCaseChar (toLowerCaseChar c) = toLowerCaseChar c.
Proof. destruct c as [[] [] [] [] [] [] [] []]; by vm_compute. Qed.

Lemma toLowerCase_idem s : toLowerCase (toLowerCase s) = toLowerCase s.
Proof.
  induction s as [|c s IH]; [done|]. simpl. by rewrite toLowerCaseChar_idem, IH.
Qed.

Lemma toLowerCase_length s : String.length (toLowerCase s) = String.length s.
Proof. induction s as [|c s IH]; [done|]. simpl. by rewrite IH. Qed.

Lemma append_length (a b : string) :
  String.length (a +:+ b) = String.length a + String.length b.
Proof. induction a as [|c a IH]; [done|]. rewrite append_cons. simpl. by rewrite IH. Qed.

Lemma append_inj_length (a a' b b' : string) :
  String.length a = String.length a' → a +:+ b = a' +:+ b' → a = a' ∧ b = b'.
Proof.
  revert a'. induction a as [|c a IH]; intros [|c' a'] Hlen Heq; try discriminate.
  - done.
  - rewrite !append_cons in Heq. injection Heq as -> Heq. injection Hlen as Hlen.
    destruct (IH a' Hlen Heq) as [-> ->]. done.
Qed.

(** Whatever occurs in a lower-cased text is in lower case. *)
Lemma occursIn_lower_is_lower keyword s :
  occursIn keyword (toLowerCase s) → toLowerCase keyword = keyword.
Proof.
  intros (before & after & Heq).
  pose proof (f_equal toLowerCase Heq) as Hlow.
  rewrite toLowerCase_idem, !toLowerCase_app, Heq in Hlow.
  apply append_inj_length in Hlow as [_ Hlow]; [|by rewrite toLowerCase_length].
  apply append_inj_length in Hlow as [Hk _]; [|by rewrite toLowerCase_length].
  done.
Qed.

Lemma hits_pos_keyword keywords m :
  0 < hits keywords m →
  ∃ keyword, keyword ∈ keywords ∧ includes (toLowerCase (content m)) keyword = true.
Proof.
  unfold hits. induction keywords as [|k ks IH]; simpl; [lia|].
  destruct (includes _ k) eqn:E.
  - intros _. exists k. split; [apply list_elem_of_here|done].
  - intros H. destruct (IH H) as (k' & Hin & Hk'). exists k'.
    split; [by apply list_elem_of_further|done].
Qed.

Lemma hits_zero keywords m :
  Forall (λ keyword, includes (toLowerCase (content m)) keyword = false) keywords →
  hits keywords m = 0.
Proof.
  unfold hits. induction 1 as [|k ks Hk _ IH]; [done|]. simpl. by rewrite Hk.
Qed.

(** Property X4.  A name that the keyword table inherits from
    [Object.prototype] makes the scan throw as soon as there is a message to
    scan; on an empty log every descriptor gives nothing. *)
Theorem findUserByDescriptor_inherited_names descriptor :
  findUserByDescriptor [] descriptor = Returned None
  ∧ (toLowerCase descriptor = "constructor" ∨ toLowerCase descriptor = "__proto__" →
     ∀ m log, findUserByDescriptor (m :: log) descriptor
              = Threw (typeError "keywords is not iterable")).
Proof.
  split.
  - unfold findUserByDescriptor. by destruct (keywordsFor descriptor).
  - intros Hname m log. unfold findUserByDescriptor, keywordsFor.
    by destruct Hname as [-> | ->].
Qed.

Lemma findUserByDescriptor_inherited_names_witness :
  findUserByDescriptor fixture "Constructor"
  = Threw (typeError "keywords is not iterable").
Proof.
  apply (proj2 (findUserByDescriptor_inherited_names "Constructor")).
  left. reflexivity.
Defined.

(** Property X5.  A descriptor outside the table is matched as typed against
    lower-cased text: when it contains a capital letter it matches nothing. *)
Theorem findUserByDescriptor_capital_never_matches log descriptor :
  DESCRIPTOR_KEYWORDS (toLowerCase descriptor) = None →
  toLowerCase descriptor ≠ descriptor →
  findUserByDescriptor log descriptor = Returned None.
Proof.
  intros Hunknown Hcapital.
  assert (keywordsFor descriptor = Keywords [descriptor]) as Hk
    by (unfold keywordsFor; by rewrite Hunknown).
  pose proof (findUserByDescriptor_top log descriptor _ Hk) as Htop.
  destruct (findUserByDescriptor log descriptor) as [[user|]|e]; [|done|done].
  destruct Htop as [Hpos _].
  apply score_pos_witness in Hpos as (m & _ & _ & Hhit).
  apply hits_pos_keyword in Hhit as (keyword & Hin & Hinc).
  apply list_elem_of_singleton in Hin as ->.
  apply includes_spec, occursIn_lower_is_lower in Hinc. done.
Qed.

Lemma findUserByDescriptor_capital_witness :
  findUserByDescriptor [mkChatMessage "eve" "Pizza time" 0] "Pizza" = Returned None.
Proof.
  apply findUserByDescriptor_capital_never_matches.
  - reflexivity.
  - by vm_compute.
Defined.

(** Property X6.  The scan only ever names the author of a buffered message
    whose lower-cased text contains one of the keywords. *)
Theorem findUserByDescriptor_names_an_author log descriptor user :
  findUserByDescriptor log descriptor = Returned (Some user) →
  ∃ keywords m keyword,
    keywordsFor descriptor = Keywords keywords
    ∧ m ∈ log ∧ username m = user
    ∧ keyword ∈ keywords
    ∧ includes (toLowerCase (content m)) keyword = true.
Proof.
  intros Hfound.
  destruct (keywordsFor descriptor) as [keywords|] eqn:Hk.
  - pose proof (findUserByDescriptor_top log descriptor _ Hk) as Htop.
    rewrite Hfound in Htop. destruct Htop as [Hpos _].
    apply score_pos_witness in Hpos as (m & Hm & Hu & Hhit).
    apply hits_pos_keyword in Hhit as (keyword & Hin & Hinc).
    by exists keywords, m, keyword.
  - unfold findUserByDescriptor in Hfound. rewrite Hk in Hfound.
    by destruct log.
Qed.

Lemma findUserByDescriptor_names_an_author_witness :
  ∃ keywords m keyword,
    keywordsFor "toxic" = Keywords keywords
    ∧ m ∈ fixture ∧ username m = "alice"
    ∧ keyword ∈ keywords
    ∧ includes (toLowerCase (content m)) keyword = true.
Proof.
  apply (findUserByDescriptor_names_an_author fixture "toxic" "alice").
  by vm_compute.
Defined.

End MoreResolution.

(** ** Blank inputs and the phrase *)

Section MoreLiteral.

Lemma trimStart_blank s : allChars isWhiteSpace s = true → trimStart s = EmptyString.
Proof.
  induction s as [|c s IH]; [done|]. simpl.
  intros [Hc Hs]%andb_true_iff. rewrite Hc. auto.
Qed.

(** Property X7.  A missing, empty or blank input resolves to nothing,
    whatever the log holds. *)
Theorem resolveModerationTarget_blank log input :
  allChars isWhiteSpace input = true →
  resolveModerationTarget log input = None
  ∧ resolveModerationTargetAny log (JStr input) = Returned None
  ∧ resolveModerationTargetAny log JUndefined = Returned None
  ∧ resolveModerationTargetAny log JNull = Returned None.
Proof.
  intros Hblank.
  assert (resolveModerationTarget log input = None) as Hnone.
  { unfold resolveModerationTarget, trim. by rewrite trimStart_blank. }
  split_and!; [done| |done..]. simpl. by rewrite Hnone.
Qed.

Lemma resolveModerationTarget_blank_witness :
  resolveModerationTarget fixture "   " = None.
Proof. apply (resolveModerationTarget_blank fixture "   "). reflexivity. Defined.

Lemma resolveModerationTarget_literal_witness :
  resolveModerationTarget [mkChatMessage "Bobby_99" "hi" 0] "bob" = Some "Bobby_99"
  ∧ resolveModerationTarget fixture "carol" = Some "carol".
Proof.
  split.
  - apply (resolveModerationTarget_literal [mkChatMessage "Bobby_99" "hi" 0] "bob").
    reflexivity.
  - apply (resolveModerationTarget_literal fixture "carol"). reflexivity.
Defined.

Lemma resolveModerationTarget_user_named_witness :
  resolveModerationTarget fixture "please time out the user named ALICE"
  = Some "alice".
Proof.
  apply (resolveModerationTarget_user_named fixture "please time out the " "ALICE");
    [reflexivity|reflexivity|discriminate].
Defined.

Lemma append_empty_r (s : string) : s +:+ EmptyString = s.
Proof. induction s as [|c s IH]; [done|]. by rewrite append_cons, IH. Qed.

(** Property X10.  The phrase with nothing after it leaves an empty
    candidate, which every buffered name contains: the oldest buffered user
    is returned. *)
Theorem resolveModerationTarget_nameless_phrase before m log :
  allChars (λ c, negb (isLineTerminator c)) before = true →
  username m ≠ EmptyString →
  resolveModerationTarget (m :: log) (before +:+ "user named ") = Some (username m)
  ∧ resolveModerationTarget [] (before +:+ "user named ") = Some EmptyString.
Proof.
  intros Hbefore Hname.
  assert (∀ l, resolveModerationTarget l (before +:+ "user named ")
               = match List.find (λ m, includes (toLowerCase (username m)) EmptyString) l with
                 | Some m => Some (if isEmpty (username m) then EmptyString else username m)
                 | None => Some EmptyString
                 end) as Hres.
  { intros l. unfold resolveModerationTarget.
    set (input := before +:+ "user named ").
    assert (isEmpty (trim input) = false) as ->.
    { pose proof (trim_nonempty before "u" "ser named " eq_refl) as H.
      change (before +:+ String "u" "ser named ") with input in H.
      by destruct (trim input). }
    assert (includes (toLowerCase input) "user named" = true) as ->.
    { apply includes_spec. exists (toLowerCase before), " ".
      unfold input. by rewrite !toLowerCase_app. }
    cbn [orb].
    assert (replaceUserNamed input = EmptyString) as ->; [|done].
    apply replaceUserNamed_matched. unfold input.
    rewrite <- (append_empty_r "user named ").
    by apply matchUserNamed_phrase. }
  split.
  - rewrite Hres. simpl.
    assert (includes (toLowerCase (username m)) EmptyString = true) as ->
      by (by destruct (toLowerCase (username m))).
    by destruct (username m).
  - by rewrite Hres.
Qed.

Lemma resolveModerationTarget_nameless_phrase_witness :
  resolveModerationTarget fixture "ban the user named " = Some "alice".
Proof.
  apply (resolveModerationTarget_nameless_phrase "ban the "
           (mkChatMessage "alice" "you're an idiot" 0)); [reflexivity|discriminate].
Defined.

End MoreLiteral.

(** ** The API wrapper and the connection *)

Section ApiWrapper.

Lemma makeTwitchApiCall_run config endpoint method body payload env st :
  payloadOf body payload →
  makeTwitchApiCall config endpoint method body env st
  = tryCatch
      (response ← fetch (apiRequest config endpoint method payload);
       if negb (ok response) then
         errorText ← lift (text response);
         throw (apiError "API_ERROR" (status response)
                  (jsOr (JStr errorText) (JStr ("HTTP " +:+ ofZ (status response)))))
       else if status response =? 204 then
         mret (JObj [("success", JBool true)])
       else lift (json response))
      (λ error,
         tag ← lift (getProp error "error");
         if truthy tag then throw error
         else
           message ← lift (getProp error "message");
           throw (apiError "NETWORK_ERROR" 0
                    (jsOr message (JStr "Network request failed"))))
      env st.
Proof.
  intros Hpayload. unfold makeTwitchApiCall, apiRequest, payloadOf in *.
  destruct body as [b|]; [|by subst].
  destruct (truthy b); [|by subst].
  destruct (JSON_stringify b); [by subst|by subst|done].
Qed.

(** Property X11.  How the wrapper reads a response: any status outside
    200..299 is thrown as an API_ERROR carrying the status and the response
    text (or "HTTP <status>" when the text is empty); status 204 gives [{
    success: true }] without reading the body; any other status gives the
    parsed body. In each case exactly one request was sent. *)
Theorem makeTwitchApiCall_reads_response config endpoint method body payload
    env st response :
  payloadOf body payload →
  fetchAnswer env (performed st) (apiRequest config endpoint method payload)
    = Returned response →
  let sent := record (EFetch (apiRequest config endpoint method payload)) st in
  (status response = 204 →
   makeTwitchApiCall config endpoint method body env st
   = (Returned (JObj [("success", JBool true)]), sent))
  ∧ (∀ parsed, ok response = true → status response ≠ 204 →
               json response = Returned parsed →
     makeTwitchApiCall config endpoint method body env st = (Returned parsed, sent))
  ∧ (∀ errorText, ok response = false → text response = Returned errorText →
     makeTwitchApiCall config endpoint method body env st
     = (Threw (apiError "API_ERROR" (status response)
                 (if isEmpty errorText
                  then JStr ("HTTP " +:+ ofZ (status response))
                  else JStr errorText)), sent)).
Proof.
  intros Hpayload Hanswer sent.
  rewrite (makeTwitchApiCall_run _ _ _ _ _ _ _ Hpayload).
  unfold tryCatch, mbind, M_bind, fetch. rewrite Hanswer. fold sent.
  split_and!.
  - intros H204. unfold ok. rewrite H204. reflexivity.
  - intros parsed Hok Hnot Hjson. rewrite Hok. cbn [negb].
    apply Z.eqb_neq in Hnot. rewrite Hnot. unfold lift. by rewrite Hjson.
  - intros errorText Hok Htext. rewrite Hok. cbn [negb].
    unfold lift. rewrite Htext. cbn.
    unfold jsOr. cbn [truthy]. by destruct (isEmpty errorText).
Qed.

Lemma makeTwitchApiCall_reads_response_witness :
  makeTwitchApiCall sampleConfig "/polls" GET None unauthorized emptyState
  = (Threw (apiError "API_ERROR" 401 (JStr "bad token")),
     record (EFetch (apiRequest sampleConfig "/polls" GET None)) emptyState).
Proof.
  pose proof (makeTwitchApiCall_reads_response sampleConfig "/polls" GET None None
                unauthorized emptyState
                (mkFetchResponse 401 (Returned "bad token") (Threw JNull))
                eq_refl eq_refl) as (_ & _ & Hrefused).
  apply (Hrefused "bad token"); reflexivity.
Defined.

(** Property X12.  What the wrapper makes of a failed request or an
    unreadable body: a rejection of [fetch], or of [response.json()], that
    has no truthy [error] property is thrown as a NETWORK_ERROR with status
    0 carrying its message (or "Network request failed"); a body that cannot
    be serialized is reported in the same way and no request is sent. *)
Theorem makeTwitchApiCall_wraps_failures config endpoint method body env st :
  (∀ payload e tag message,
     payloadOf body payload →
     fetchAnswer env (performed st) (apiRequest config endpoint method payload)
       = Threw e →
     getProp e "error" = Returned tag → truthy tag = false →
     getProp e "message" = Returned message →
     makeTwitchApiCall config endpoint method body env st
     = (Threw (networkError message),
        record (EFetch (apiRequest config endpoint method payload)) st))
  ∧ (∀ payload response e tag message,
       payloadOf body payload →
       fetchAnswer env (performed st) (apiRequest config endpoint method payload)
         = Returned response →
       ok response = true → status response ≠ 204 →
       json response = Threw e →
       getProp e "error" = Returned tag → truthy tag = false →
       getProp e "message" = Returned message →
       makeTwitchApiCall config endpoint method body env st
       = (Threw (networkError message),
          record (EFetch (apiRequest config endpoint method payload)) st))
  ∧ (∀ b e, body = Some b → truthy b = true → JSON_stringify b = SThrows e →
       makeTwitchApiCall config endpoint method body env st
       = (Threw (networkError (JStr "Do not know how to serialize a BigInt")), st)).
Proof.
  split_and!.
  - intros payload e tag message Hpayload Hanswer Htag Hfalsy Hmessage.
    rewrite (makeTwitchApiCall_run _ _ _ _ _ _ _ Hpayload).
    unfold tryCatch, mbind, M_bind, fetch, lift. rewrite Hanswer, Htag, Hfalsy.
    by rewrite Hmessage.
  - intros payload response e tag message Hpayload Hanswer Hok Hnot Hjson
      Htag Hfalsy Hmessage.
    rewrite (makeTwitchApiCall_run _ _ _ _ _ _ _ Hpayload).
    unfold tryCatch, mbind, M_bind, fetch, lift. rewrite Hanswer, Hok. cbn [negb].
    apply Z.eqb_neq in Hnot. rewrite Hnot, Hjson, Htag, Hfalsy.
    by rewrite Hmessage.
  - intros b e -> Htruthy Hthrows.
    pose proof (serialize_throws _ _ _ _ Hthrows) as ->.
    unfold makeTwitchApiCall. rewrite Htruthy, Hthrows. reflexivity.
Qed.

Lemma makeTwitchApiCall_wraps_failures_witness :
  makeTwitchApiCall sampleConfig "/polls" POST
    (Some (JObj [("duration", JBigInt 60)])) cooperative emptyState
  = (Threw (networkError (JStr "Do not know how to serialize a BigInt")), emptyState).
Proof.
  apply (proj2 (proj2 (makeTwitchApiCall_wraps_failures sampleConfig "/polls" POST
                         (Some (JObj [("duration", JBigInt 60)])) cooperative emptyState))
           (JObj [("duration", JBigInt 60)]) bigIntError);
    reflexivity.
Defined.

(** Property X13.  The id lookup never throws; it sends exactly one request,
    the GET of the user with the name percent-encoded, and answers [null] or
    a truthy id. *)
Theorem getUserIdFromUsername_null_or_id config user env st :
  ∃ userId,
    getUserIdFromUsername config user env st
    = (Returned userId, record (EFetch (lookupRequest config user)) st)
    ∧ (userId = JNull ∨ truthy userId = true).
Proof.
  assert (outcomes (getUserIdFromUsername config user)
            (λ v, v = JNull ∨ truthy v = true) never) as Ho.
  { unfold getUserIdFromUsername.
    eapply outcomes_tryCatch with (E' := anyValue).
    - eapply outcomes_bind with (Q := anyValue); [intros ? ?; by destruct (_.1)|].
      intros response _.
      eapply outcomes_bind with (Q := anyValue); [intros ? ?; by destruct (_.1)|].
      intros data _.
      eapply outcomes_bind with (Q := anyValue); [intros ? ?; by destruct (_.1)|].
      intros first _.
      eapply outcomes_bind with (Q := anyValue); [intros ? ?; by destruct (_.1)|].
      intros id _. apply outcomes_ret. unfold jsOr.
      destruct (truthy id) eqn:E; auto.
    - intros e _. apply outcomes_ret. by left. }
  specialize (Ho env st).
  pose proof (getUserIdFromUsername_state config user env st) as Hs.
  destruct (getUserIdFromUsername config user env st) as [[userId|e] st']; [|done].
  simpl in *. subst st'. eauto.
Qed.

(** Property X14.  Once a connection attempt has succeeded, later checks
    answer [true] without contacting the IRC client again; a check never
    throws and makes at most one attempt. *)
Theorem ensureIrcConnection_connects_once env st :
  ∃ connected st',
    ensureIrcConnection env st = (Returned connected, st')
    ∧ recentMessages st' = recentMessages st
    ∧ (performed st' = performed st ∨ performed st' = performed st ++ [EConnect])
    ∧ (connected = true →
       ircConnected st' = true
       ∧ ∀ env', ensureIrcConnection env' st' = (Returned true, st')).
Proof.
  unfold ensureIrcConnection, tryCatch, tmiClient_connect, mbind, M_bind, gets,
    setIrcConnected, mret, M_ret.
  destruct (ircConnected st) eqn:Hc.
  - exists true, st. rewrite Hc. split_and!; auto.
  - destruct (tmiConnect env (performed st)) as [r|].
    + exists false, (record EConnect st). split_and!; auto. done.
    + eexists true, _. split_and!; [reflexivity|done|by right|]. done.
Qed.

End ApiWrapper.

(** ** Paths of the executor *)

Section MoreExecutor.

(** Property X15.  Sending a chat message through the executor: without a
    connection nothing is sent; a message the client accepts is also
    appended to the chat log as a "[BOT] " line under the channel name; when
    the client rejects it with a reason text, the reason is not reported
    (the error is "Unknown error") and the log is left alone. *)
Theorem executor_send_message config parameters env st :
  let channel := "#" +:+ twitchChannel config in
  let message := param parameters "message" in
  (ircConnected st = false → tmiConnect env (performed st) ≠ None →
   mcpExecutor config "sendMessageToChat" parameters env st
   = (Returned (failure "IRC connection not available"), record EConnect st))
  ∧ (ircConnected st = true →
     tmiSay env (performed st) channel message = None →
     mcpExecutor config "sendMessageToChat" parameters env st
     = (Returned (succeeded (JObj [("message", message)])),
        mkState (addChatMessage (clock env (performed st ++ [ESay channel message]))
                   (twitchChannel config) ("[BOT] " +:+ toJsString message)
                   (recentMessages st))
                true (performed st ++ [ESay channel message])))
  ∧ (∀ reason, ircConnected st = true →
     tmiSay env (performed st) channel message = Some (RejectReason reason) →
     mcpExecutor config "sendMessageToChat" parameters env st
     = (Returned (failure "Unknown error"), record (ESay channel message) st)).
Proof.
  intros channel message.
  change (mcpExecutor config "sendMessageToChat" parameters)
    with (tryCatch (exec_sendMessageToChat config parameters) executorCatch).
  unfold exec_sendMessageToChat. fold channel message.
  split_and!.
  - intros Hc Hreject. rewrite run_tryCatch, run_bind.
    unfold ensureIrcConnection. rewrite run_bind. cbn [gets]. rewrite Hc.
    rewrite run_tryCatch, run_bind. unfold tmiClient_connect.
    by destruct (tmiConnect env (performed st)).
  - intros Hc Hsay. rewrite run_tryCatch, run_bind.
    unfold ensureIrcConnection. rewrite run_bind. cbn [gets]. rewrite Hc.
    cbn [mret M_ret negb]. rewrite run_bind. unfold tmiClient_say. rewrite Hsay.
    rewrite run_bind. unfold addChatMessageM, record. simpl. by rewrite Hc.
  - intros reason Hc Hsay. rewrite run_tryCatch, run_bind.
    unfold ensureIrcConnection. rewrite run_bind. cbn [gets]. rewrite Hc.
    cbn [mret M_ret negb]. rewrite run_bind. unfold tmiClient_say. by rewrite Hsay.
Qed.

Lemma executor_send_message_witness :
  mcpExecutor sampleConfig "sendMessageToChat" sampleParameters
    (mkEnv (λ _, None) (λ _ _ _, Some (RejectReason "Not connected to server."))
           (λ _ _, Returned usersFound) (λ _, 0))
    (mkState fixture true [])
  = (Returned (failure "Unknown error"),
     mkState fixture true [ESay "#channel" (JStr "hello")]).
Proof.
  apply (proj2 (proj2 (executor_send_message sampleConfig sampleParameters _
                         (mkState fixture true [])))
           "Not connected to server."); reflexivity.
Defined.

(** Property X16.  A truthy [duration] parameter is sent and reported as it
    is; the reason is then not consulted for the duration. *)
Theorem executor_timeout_explicit_duration config parameters env st user userId
    st1 response st2 :
  truthy (param parameters "duration") = true →
  resolveModerationTargetAny (recentMessages st)
    (param parameters "usernameOrDescriptor") = Returned (Some user) →
  isEmpty user = false →
  getUserIdFromUsername config user env st = (Returned userId, st1) →
  truthy userId = true →
  makeTwitchApiCall config "/moderation/bans" POST
    (Some (moderationBody config
             [("user_id", userId);
              ("reason", jsOr (param parameters "reason")
                              (JStr "Autonomous moderation"));
              ("duration", param parameters "duration")])) env st1
    = (Returned response, st2) →
  mcpExecutor config "timeoutUser" parameters env st
  = (Returned (mkExecResult true
                 (JObj [("user", JStr user);
                        ("duration", param parameters "duration");
                        ("reason", param parameters "reason")]) None), st2).
Proof.
  intros Hdur Htarget Hne Hid Htruthy Hcall.
  change (mcpExecutor config "timeoutUser" parameters)
    with (tryCatch (exec_timeoutUser config parameters) executorCatch).
  rewrite run_tryCatch. unfold exec_timeoutUser.
  rewrite run_bind. cbn [gets]. rewrite run_bind. unfold lift at 1.
  rewrite Htarget. cbn [noTarget]. rewrite Hne. cbv zeta. cbn [default from_option id].
  rewrite run_bind, Hid, Htruthy. cbn [negb].
  rewrite run_bind, Hdur. cbn [mret M_ret].
  rewrite run_bind, Hcall. done.
Qed.

Lemma executor_timeout_explicit_duration_witness :
  mcpExecutor sampleConfig "timeoutUser" (<["reason" := JNum 7]> sampleParameters)
    cooperative emptyState
  = (Returned (mkExecResult true
                 (JObj [("user", JStr "bob_1"); ("duration", JNum 60);
                        ("reason", JNum 7)]) None),
     record (EFetch (apiRequest sampleConfig "/moderation/bans" POST
                       (Some ("{" +:+ quoteJSON "broadcaster_id" +:+ ":" +:+ quoteJSON "123"
                              +:+ "," +:+ quoteJSON "moderator_id" +:+ ":" +:+ quoteJSON "123"
                              +:+ "," +:+ quoteJSON "data" +:+ ":{"
                              +:+ quoteJSON "user_id" +:+ ":" +:+ quoteJSON "42"
                              +:+ "," +:+ quoteJSON "reason" +:+ ":7,"
                              +:+ quoteJSON "duration" +:+ ":60}}"))))
       (record (EFetch (lookupRequest sampleConfig "bob_1")) emptyState)).
Proof.
  refine (eq_trans
            (executor_timeout_explicit_duration sampleConfig
               (<["reason" := JNum 7]> sampleParameters) cooperative emptyState
               "bob_1" (JStr "42")
               (record (EFetch (lookupRequest sampleConfig "bob_1")) emptyState)
               (JObj [("data", JArr [JObj [("id", JStr "42")]])])
               _ _ _ _ _ _ _) _);
    [by vm_compute..|].
  vm_compute. reflexivity.
Defined.



(** Property X18.  When the category search finds nothing, the executor
    reports that the category could not be found and does not touch the
    channel. *)
Theorem executor_category_not_found config parameters env st searchResponse st1 data :
  makeTwitchApiCall config
    ("/search/categories?query=" +:+
     encodeURIComponent (toJsString (param parameters "category"))) GET None env st
    = (Returned searchResponse, st1) →
  getProp searchResponse "data" = Returned data →
  truthy data = false ∨ data = JArr [] →
  mcpExecutor config "updateStreamCategory" parameters env st
  = (Returned (failure ("Could not find category: " +:+
                        toJsString (param parameters "category"))), st1)
  ∧ performed st1
    = performed st ++
      [EFetch (apiRequest config
                 ("/search/categories?query=" +:+
                  encodeURIComponent (toJsString (param parameters "category")))
                 GET None)].
Proof.
  intros Hsearch Hdata Hempty.
  split.
  - change (mcpExecutor config "updateStreamCategory" parameters)
      with (tryCatch (exec_updateStreamCategory config parameters) executorCatch).
    rewrite run_tryCatch. unfold exec_updateStreamCategory.
    rewrite run_bind, Hsearch, run_bind. unfold lift at 1. rewrite Hdata.
    rewrite run_bind.
    destruct Hempty as [Hfalsy| ->].
    + by rewrite Hfalsy.
    + reflexivity.
  - pose proof (makeTwitchApiCall_state config
                  ("/search/categories?query=" +:+
                   encodeURIComponent (toJsString (param parameters "category")))
                  GET env st) as Hst.
    rewrite Hsearch in Hst. simpl in Hst. by subst st1.
Qed.

Lemma executor_category_not_found_witness :
  mcpExecutor sampleConfig "updateStreamCategory" sampleParameters emptyDirectory
    emptyState
  = (Returned (failure "Could not find category: Just Chatting"),
     record (EFetch (apiRequest sampleConfig
                       "/search/categories?query=Just%20Chatting" GET None))
       emptyState).
Proof.
  apply (executor_category_not_found sampleConfig sampleParameters emptyDirectory
           emptyState (JObj [("data", JArr [])]) _ (JArr []));
    [reflexivity|reflexivity|by right].
Defined.

End MoreExecutor.

(** ** The tools always reply *)

Section Tools.

Ltac tool_body :=
  repeat first
    [ apply outcomes_ret; exact I
    | apply makeTwitchApiCall_outcomes
    | apply outcomes_never_notNullish, getUserIdFromUsername_outcomes
    | apply outcomes_gets; intros; exact I
    | apply outcomes_lift_getProp
    | apply outcomes_lift_any;
      first [apply splitTitles_outcome | apply getIndex_outcome
            | by match goal with |- pureOutcome (getPropOpt ?v _) _ _ => destruct v end
            | by match goal with |- pureOutcome (getIndexOpt ?v _) _ _ => destruct v end]
    | eapply outcomes_bind with (Q := anyValue); [|intros ? _]
    | match goal with |- outcomes (if ?b then _ else _) _ _ => destruct b end
    | match goal with |- outcomes (let _ := _ in _) _ _ => cbv zeta end ].

Ltac tool_total :=
  eapply outcomes_tryCatch with (E' := notNullish);
  [tool_body
  |intros error Herror; unfold replyWithError;
   eapply outcomes_bind with (Q := anyValue);
   [apply outcomes_lift; by destruct error
   |intros message _; by apply outcomes_ret]].

(** Property X19.  Every tool handler answers with a text: whatever the
    collaborators do, no handler throws. *)
Theorem tools_always_reply config toFixed1 :
  (∀ target reason, outcomes (tool_timeoutUser config target reason) anyValue never)
  ∧ (∀ target reason, outcomes (tool_banUser config target reason) anyValue never)
  ∧ (∀ title choices duration,
       outcomes (tool_createTwitchPoll config title choices duration) anyValue never)
  ∧ (∀ title choices duration,
       outcomes (tool_createTwitchPrediction config title choices duration)
         anyValue never)
  ∧ outcomes (tool_createTwitchClip config) anyValue never
  ∧ (∀ title, outcomes (tool_updateStreamTitle config title) anyValue never)
  ∧ (∀ category, outcomes (tool_updateStreamCategory config category) anyValue never)
  ∧ (∀ message, outcomes (tool_sendMessageToChat config message) anyValue never)
  ∧ outcomes tool_getRecentChatLog anyValue never
  ∧ outcomes (tool_analyzeChat toFixed1) anyValue never.
Proof.
  split_and!.
  - intros target reason. unfold tool_timeoutUser.
    tool_total.
  - intros target reason. unfold tool_banUser.
    tool_total.
  - intros. unfold tool_createTwitchPoll. tool_total.
  - intros. unfold tool_createTwitchPrediction. tool_total.
  - unfold tool_createTwitchClip. tool_total.
  - intros. unfold tool_updateStreamTitle. tool_total.
  - intros. unfold tool_updateStreamCategory. tool_total.
  - intros message env st. unfold tool_sendMessageToChat.
    rewrite run_bind.
    pose proof (ensureIrcConnection_outcomes env st) as Hc.
    destruct (ensureIrcConnection env st) as [[connected|e] st1]; [|done].
    destruct connected; [|done]. cbn [negb]. rewrite run_bind.
    unfold tmiClient_say_settled.
    by destruct (tmiSay env (performed st1) _ _) as [[reason|name text]|].
  - intros env st. unfold tool_getRecentChatLog. rewrite run_bind. cbn [gets].
    by destruct (getRecentChatLog 20 (recentMessages st)).
  - by intros env st.
Qed.

End Tools.

(** ** Paths of the moderation tools *)

Section MoreTools.

(** Property X20.  When the target resolves to a name the directory does not
    know, both moderation tools say so and send nothing but the lookup. *)
Theorem moderation_tools_unknown_user config target reason env st user userId st1 :
  resolveModerationTarget (recentMessages st) target = Some user →
  isEmpty user = false →
  getUserIdFromUsername config user env st = (Returned userId, st1) →
  truthy userId = false →
  tool_timeoutUser config target reason env st
  = (Returned ("Could not resolve user ID for username: " +:+ user), st1)
  ∧ tool_banUser config target reason env st
    = (Returned ("Could not resolve user ID for username: " +:+ user), st1)
  ∧ st1 = record (EFetch (lookupRequest config user)) st.
Proof.
  intros Htarget Hne Hid Hfalsy.
  unfold tool_timeoutUser, tool_banUser.
  rewrite !run_tryCatch, !run_bind. cbn [gets]. rewrite Htarget. cbn [noTarget].
  rewrite Hne. cbv zeta. cbn [default from_option id].
  rewrite !run_bind, Hid, Hfalsy. cbn [negb mret M_ret].
  split_and!; [done..|].
  pose proof (getUserIdFromUsername_state config user env st) as Hst.
  by rewrite Hid in Hst.
Qed.

Lemma moderation_tools_unknown_user_witness :
  tool_banUser sampleConfig "carol" None emptyDirectory (mkState fixture true [])
  = (Returned "Could not resolve user ID for username: carol",
     record (EFetch (lookupRequest sampleConfig "carol")) (mkState fixture true [])).
Proof.
  apply (moderation_tools_unknown_user sampleConfig "carol" None emptyDirectory
           (mkState fixture true []) "carol" JNull); reflexivity.
Defined.

(** Property X21.  Without a reason the [timeoutUser] tool times the user
    out for 600 seconds, giving "inappropriate behavior" as the reason; with
    a reason the duration is the guess for that reason. The tool has no way
    to set a duration. *)
Theorem tool_timeoutUser_duration config target reason env st user userId st1
    response st2 :
  let timeoutReason := textOr reason "inappropriate behavior" in
  resolveModerationTarget (recentMessages st) target = Some user →
  isEmpty user = false →
  getUserIdFromUsername config user env st = (Returned userId, st1) →
  truthy userId = true →
  makeTwitchApiCall config "/moderation/bans" POST
    (Some (moderationBody config
             [("user_id", userId); ("reason", JStr timeoutReason);
              ("duration", JNum (guessTimeoutDuration timeoutReason))])) env st1
    = (Returned response, st2) →
  tool_timeoutUser config target reason env st
  = (Returned ("Successfully timed out " +:+ user +:+ " for "
               +:+ ofZ (guessTimeoutDuration timeoutReason)
               +:+ " seconds. Reason: " +:+ timeoutReason), st2)
  ∧ (reason = None ∨ reason = Some EmptyString →
     timeoutReason = "inappropriate behavior"
     ∧ guessTimeoutDuration timeoutReason = 600).
Proof.
  intros timeoutReason Htarget Hne Hid Htruthy Hcall. split.
  - unfold tool_timeoutUser.
    rewrite run_tryCatch, run_bind. cbn [gets]. rewrite Htarget. cbn [noTarget].
    rewrite Hne. cbv zeta. cbn [default from_option id].
    rewrite run_bind, Hid, Htruthy. cbn [negb]. fold timeoutReason.
    by rewrite run_bind, Hcall.
  - unfold timeoutReason. by intros [-> | ->].
Qed.

Lemma tool_timeoutUser_duration_witness :
  tool_timeoutUser sampleConfig "bob_1" None cooperative emptyState
  = (Returned "Successfully timed out bob_1 for 600 seconds. Reason: inappropriate behavior",
     record (EFetch (apiRequest sampleConfig "/moderation/bans" POST
                       (Some ("{" +:+ quoteJSON "broadcaster_id" +:+ ":" +:+ quoteJSON "123"
                              +:+ "," +:+ quoteJSON "moderator_id" +:+ ":" +:+ quoteJSON "123"
                              +:+ "," +:+ quoteJSON "data" +:+ ":{"
                              +:+ quoteJSON "user_id" +:+ ":" +:+ quoteJSON "42"
                              +:+ "," +:+ quoteJSON "reason" +:+ ":"
                              +:+ quoteJSON "inappropriate behavior"
                              +:+ "," +:+ quoteJSON "duration" +:+ ":600}}"))))
       (record (EFetch (lookupRequest sampleConfig "bob_1")) emptyState)).
Proof.
  refine (eq_trans
            (proj1 (tool_timeoutUser_duration sampleConfig "bob_1" None cooperative
                      emptyState "bob_1" (JStr "42")
                      (record (EFetch (lookupRequest sampleConfig "bob_1")) emptyState)
                      (JObj [("data", JArr [JObj [("id", JStr "42")]])])
                      _ _ _ _ _ _) ) _);
    [by vm_compute..|].
  vm_compute. reflexivity.
Defined.

(** Property X22.  What the API refuses, the moderation tools report: the
    reply is the tool's error prefix followed by the message of the error. *)
Theorem moderation_tools_report_api_errors config target reason env st user
    userId st1 kind code message st2 :
  resolveModerationTarget (recentMessages st) target = Some user →
  isEmpty user = false →
  getUserIdFromUsername config user env st = (Returned userId, st1) →
  truthy userId = true →
  let timeoutReason := textOr reason "inappropriate behavior" in
  let banReason := textOr reason "severe violation of chat rules" in
  (makeTwitchApiCall config "/moderation/bans" POST
     (Some (moderationBody config
              [("user_id", userId); ("reason", JStr timeoutReason);
               ("duration", JNum (guessTimeoutDuration timeoutReason))])) env st1
   = (Threw (apiError kind code (JStr message)), st2) →
   tool_timeoutUser config target reason env st
   = (Returned ("Error timing out user: " +:+ message), st2))
  ∧ (makeTwitchApiCall config "/moderation/bans" POST
       (Some (moderationBody config
                [("user_id", userId); ("reason", JStr banReason)])) env st1
     = (Threw (apiError kind code (JStr message)), st2) →
     tool_banUser config target reason env st
     = (Returned ("Error banning user: " +:+ message), st2)).
Proof.
  intros Htarget Hne Hid Htruthy timeoutReason banReason.
  unfold tool_timeoutUser, tool_banUser.
  rewrite !run_tryCatch, !run_bind. cbn [gets]. rewrite Htarget. cbn [noTarget].
  rewrite Hne. cbv zeta. cbn [default from_option id].
  rewrite !run_bind, Hid, Htruthy. cbn [negb].
  fold timeoutReason banReason.
  split; intros Hcall; by rewrite run_bind, Hcall.
Qed.

Lemma moderation_tools_report_api_errors_witness :
  tool_banUser sampleConfig "bob_1" (Some "rude") readOnly emptyState
  = (Returned "Error banning user: forbidden",
     record (EFetch (apiRequest sampleConfig "/moderation/bans" POST
                       (Some (jsonText (moderationBody sampleConfig
                                          [("user_id", JStr "42");
                                           ("reason", JStr "rude")])))))
       (record (EFetch (lookupRequest sampleConfig "bob_1")) emptyState)).
Proof.
  refine (proj2 (moderation_tools_report_api_errors sampleConfig "bob_1"
                   (Some "rude") readOnly emptyState "bob_1" (JStr "42")
                   (record (EFetch (lookupRequest sampleConfig "bob_1")) emptyState)
                   "API_ERROR" 403 "forbidden" _ _ _ _ _) _);
    by vm_compute.
Defined.

End MoreTools.

(** ** Chat analysis *)

Section ChatAnalysis.
Local Open Scope nat_scope.
Implicit Types (S : list (string * nat)) (w word : string) (words : list string).

Lemma countWord_cases S w :
  (significant w ∧ countWord S w = bump w S)
  ∨ (¬ significant w ∧ countWord S w = S).
Proof.
  unfold countWord, significant.
  destruct (3 <? String.length w) eqn:Hlen; simpl.
  - apply Nat.ltb_lt in Hlen. case_bool_decide; simpl; [right|left]; intuition.
  - apply Nat.ltb_ge in Hlen. right. split; [lia|done].
Qed.

Lemma occurrences_snoc w words x :
  occurrences w (words ++ [x])
  = occurrences w words + (if decide (x = w) then 1 else 0).
Proof.
  unfold occurrences. rewrite filter_app, length_app. f_equal.
  rewrite filter_cons, filter_nil. by destruct (decide (x = w)).
Qed.

Lemma occurrences_pos w words : w ∈ words ↔ 0 < occurrences w words.
Proof.
  unfold occurrences. split.
  - intros Hin.
    assert (w ∈ filter (λ x, x = w) words) as Hf by by apply list_elem_of_filter.
    destruct (filter _ words); [by apply elem_of_nil in Hf|simpl; lia].
  - intros Hpos. destruct (filter (λ x, x = w) words) as [|x rest] eqn:E;
      [simpl in Hpos; lia|].
    assert (x ∈ filter (λ x, x = w) words) as Hx by (rewrite E; apply list_elem_of_here).
    apply list_elem_of_filter in Hx as [-> Hx]. done.
Qed.

(** The [Map] after the inner loop has seen [words]. *)
Lemma countWords_lookup words w n :
  assocLookup w (foldl countWord [] words) = Some n
  ↔ significant w ∧ n = occurrences w words ∧ 0 < n.
Proof.
  revert n. induction words as [|x words IH] using rev_ind; intros n.
  - simpl. unfold occurrences. simpl. split; [done|]. intros (_ & -> & ?). lia.
  - rewrite foldl_app, occurrences_snoc. simpl.
    destruct (countWord_cases (foldl countWord [] words) x) as [[Hsig ->]|[Hsig ->]].
    + destruct (decide (x = w)) as [->|Hne].
      * rewrite assocLookup_bump_same.
        destruct (assocLookup w (foldl countWord [] words)) as [k|] eqn:Hk; simpl.
        -- destruct (proj1 (IH k) eq_refl) as (_ & -> & _).
           split; [intros [= <-]; split_and!; [done|done|lia]|].
           by intros (_ & -> & _).
        -- assert (occurrences w words = 0) as ->.
           { destruct (occurrences w words) as [|k] eqn:Hocc; [done|].
             assert (@None nat = Some (Datatypes.S k)) as Hsome
               by (apply IH; split_and!; [done|done|lia]).
             discriminate Hsome. }
           split; [intros [= <-]; split_and!; [done|done|lia]|].
           by intros (_ & -> & _).
      * rewrite assocLookup_bump_other by done. rewrite Nat.add_0_r. apply IH.
    + destruct (decide (x = w)) as [->|Hne].
      * split; [intros Hk; apply IH in Hk as [? _]; done|intros [? _]; done].
      * rewrite Nat.add_0_r. apply IH.
Qed.

Lemma countWords_NoDup words : NoDup (foldl countWord [] words).*1.
Proof.
  induction words as [|x words IH] using rev_ind; [apply NoDup_nil_2|].
  rewrite foldl_app. simpl.
  destruct (countWord_cases (foldl countWord [] words) x) as [[_ ->]|[_ ->]];
    [by apply bump_keys_NoDup|done].
Qed.

Lemma chatWords_cons m log :
  chatWords (m :: log) = splitWhitespace (toLowerCase (content m)) ++ chatWords log.
Proof. reflexivity. Qed.

Lemma analyzeMessage_fold log : ∀ acc,
  foldl analyzeMessage acc log
  = (foldl countWord acc.1 (chatWords log), acc.2 + length (chatWords log)).
Proof.
  induction log as [|m log IH]; intros [S total]; simpl.
  - by rewrite Nat.add_0_r.
  - rewrite IH, chatWords_cons, foldl_app, length_app. simpl.
    by rewrite Nat.add_assoc.
Qed.

Lemma splitWhitespaceFrom_nonempty afterSpace s :
  splitWhitespaceFrom afterSpace s ≠ [].
Proof.
  revert afterSpace. induction s as [|c s IH]; intros afterSpace; simpl; [done|].
  destruct (isWhiteSpace c).
  - destruct afterSpace; [apply IH|done].
  - by destruct (splitWhitespaceFrom false s).
Qed.

Lemma chatWords_length log : length log ≤ length (chatWords log).
Proof.
  induction log as [|m log IH]; [done|].
  rewrite chatWords_cons, length_app. simpl.
  pose proof (splitWhitespaceFrom_nonempty false (toLowerCase (content m))) as Hne.
  unfold splitWhitespace.
  destruct (splitWhitespaceFrom false (toLowerCase (content m))); [done|simpl; lia].
Qed.

Lemma topEntries_sorted log :
  topEntries log = take 5 (sortByScoreDesc (foldl countWord [] (chatWords log))).
Proof. unfold topEntries. by rewrite analyzeMessage_fold. Qed.

(** An entry kept by [topEntries] is a qualifying word with its count. *)
Lemma topEntries_listed log word count :
  (word, count) ∈ topEntries log →
  significant word ∧ count = occurrences word (chatWords log) ∧ 0 < count.
Proof.
  rewrite topEntries_sorted. intros Hin.
  apply subseteq_take in Hin. rewrite sortByScoreDesc_Permutation in Hin.
  apply countWords_lookup, assocLookup_of_entry; [apply countWords_NoDup|done].
Qed.

(** A qualifying word is left out only by five entries that are at least
    as frequent. *)
Lemma topEntries_full log word :
  significant word → word ∈ chatWords log → word ∉ (topEntries log).*1 →
  length (topEntries log) = 5
  ∧ ∀ entry, entry ∈ topEntries log →
             occurrences word (chatWords log) ≤ entry.2.
Proof.
  rewrite topEntries_sorted.
  set (S := foldl countWord [] (chatWords log)).
  intros Hsig Hword Hout.
  pose proof (sortByScoreDesc_descending S) as Hsorted.
  rewrite <- (take_drop 5 (sortByScoreDesc S)) in Hsorted.
  apply occurrences_pos in Hword.
  assert ((word, occurrences word (chatWords log)) ∈ S) as Hin.
  { apply entry_of_assocLookup, countWords_lookup. done. }
  rewrite <- (sortByScoreDesc_Permutation S),
    <- (take_drop 5 (sortByScoreDesc S)) in Hin.
  apply elem_of_app in Hin as [Hin|Hin].
  { destruct Hout. apply list_elem_of_fmap.
    by exists (word, occurrences word (chatWords log)). }
  split.
  - apply length_take_le.
    destruct (decide (5 ≤ length (sortByScoreDesc S))) as [|Hshort]; [done|].
    rewrite drop_ge in Hin by lia. by apply elem_of_nil in Hin.
  - intros entry Hentry.
    by apply (StronglySorted_app_1_elem_of _ _ _ entry
                (word, occurrences word (chatWords log))) in Hsorted.
Qed.

(** Property X23.  The topics of [analyzeChat] are at most five words, each
    longer than three characters and not a common word, each listed once
    with the number of times it occurs in the lower-cased, white-space-split
    messages, most frequent first; a word that qualifies and is left out
    occurs no more often than any of the five listed. *)
Theorem analyzeChat_topics log :
  let top := topEntries log in
  length top ≤ 5 ∧ descending top ∧ NoDup top.*1
  ∧ (∀ word count, (word, count) ∈ top →
       significant word ∧ count = occurrences word (chatWords log) ∧ 0 < count)
  ∧ (∀ word, significant word → word ∈ chatWords log → word ∉ top.*1 →
       length top = 5
       ∧ ∀ entry, entry ∈ top → occurrences word (chatWords log) ≤ entry.2).
Proof.
  intros top.
  split_and!; [| | |apply topEntries_listed|apply topEntries_full];
    unfold top; rewrite topEntries_sorted;
    set (S := foldl countWord [] (chatWords log)).
  - rewrite length_take. lia.
  - pose proof (sortByScoreDesc_descending S) as Hsorted.
    rewrite <- (take_drop 5 (sortByScoreDesc S)) in Hsorted.
    by apply StronglySorted_app_1_l in Hsorted.
  - rewrite fmap_take.
    eapply sublist_NoDup; [|apply sublist_take].
    rewrite (sortByScoreDesc_Permutation S). apply countWords_NoDup.
Qed.

(** Property X24.  The report of [analyzeChat] on a non-empty log gives the
    number of messages and the average over all pieces of the split, at
    least one per message; the topics read "No significant topics detected"
    when no word qualifies, and list the top entries otherwise. *)
Theorem analyzeChat_report toFixed1 log :
  log ≠ [] →
  ∃ topics,
    analyzeChat toFixed1 log
    = "Chat Analysis:" +:+ LF +:+ "- Total messages: "
      +:+ ofZ (Z.of_nat (length log)) +:+ LF
      +:+ "- Average words per message: "
      +:+ toFixed1 (length (chatWords log)) (length log) +:+ LF
      +:+ "- Top topics: " +:+ topics
    ∧ length log ≤ length (chatWords log)
    ∧ ((∀ word, word ∈ chatWords log → ¬ significant word) →
       topics = "No significant topics detected")
    ∧ ((∃ word, word ∈ chatWords log ∧ significant word) →
       topEntries log ≠ []
       ∧ topics = join ", " (formatTopic <$> topEntries log)).
Proof.
  intros Hne. destruct log as [|m log]; [done|].
  set (all := m :: log).
  exists (match formatTopic <$> topEntries all with
          | [] => "No significant topics detected"
          | _ :: _ => join ", " (formatTopic <$> topEntries all)
          end).
  split_and!.
  - unfold analyzeChat. fold all. cbv zeta.
    rewrite analyzeMessage_fold. cbn [fst snd Nat.add].
    by destruct (formatTopic <$> topEntries all).
  - apply chatWords_length.
  - intros Hnone.
    destruct (topEntries all) as [|[word count] rest] eqn:Htop; [done|].
    destruct (topEntries_listed all word count) as (Hsig & -> & Hpos).
    { rewrite Htop. apply list_elem_of_here. }
    destruct (Hnone word); [|done]. by apply occurrences_pos.
  - intros (word & Hword & Hsig).
    destruct (topEntries all) as [|entry rest] eqn:Htop; [|done].
    destruct (topEntries_full all word Hsig Hword) as [Hlen _].
    { rewrite Htop. apply not_elem_of_nil. }
    rewrite Htop in Hlen. done.
Qed.

Lemma analyzeChat_report_witness :
  ∃ topics,
    analyzeChat (λ _ _, "2.0") fixture
    = "Chat Analysis:" +:+ LF +:+ "- Total messages: "
      +:+ ofZ (Z.of_nat (length fixture)) +:+ LF
      +:+ "- Average words per message: " +:+ "2.0" +:+ LF
      +:+ "- Top topics: " +:+ topics.
Proof.
  destruct (analyzeChat_report (λ _ _, "2.0") fixture) as (topics & Hreport & _);
    [done|].
  by exists topics.
Defined.

End ChatAnalysis.

(** ** Queries, the heuristic analysis and the stream title *)

Section MoreStrings.







End MoreStrings.

Section Heuristic.

(** Property X26.  [aiAnalyzeFunction] answers by the first of its five
    keywords that the prompt contains, in any letter case: an empty JSON
    array for toxicity, spam and engagement, whatever else the prompt
    mentions, and the error object when it contains none of the five. *)
Theorem aiAnalyzeFunction_answers prompt :
  (mentions prompt "toxicity" ∨ mentions prompt "spam"
   ∨ mentions prompt "engagement" → aiAnalyzeFunction prompt = "[]")
  ∧ (¬ mentions prompt "toxicity" → ¬ mentions prompt "spam" →
     ¬ mentions prompt "engagement" → ¬ mentions prompt "sentiment" →
     ¬ mentions prompt "activity" →
     aiAnalyzeFunction prompt
     = "{" +:+ quoteJSON "error" +:+ ":" +:+ quoteJSON "Unknown analysis type" +:+ "}")
  ∧ aiAnalyzeFunction (toLowerCase prompt) = aiAnalyzeFunction prompt.
Proof.
  unfold mentions. rewrite <- !includes_spec. split_and!.
  - unfold aiAnalyzeFunction. cbv zeta.
    destruct (includes (toLowerCase prompt) "toxicity"); [done|].
    destruct (includes (toLowerCase prompt) "spam"); [done|].
    destruct (includes (toLowerCase prompt) "engagement"); [done|].
    intros [|[|]]; done.
  - unfold aiAnalyzeFunction. cbv zeta.
    destruct (includes (toLowerCase prompt) "toxicity"); [done|].
    destruct (includes (toLowerCase prompt) "spam"); [done|].
    destruct (includes (toLowerCase prompt) "engagement"); [done|].
    destruct (includes (toLowerCase prompt) "sentiment"); [done|].
    destruct (includes (toLowerCase prompt) "activity"); [done|].
    intros. by vm_compute.
  - unfold aiAnalyzeFunction. by rewrite toLowerCase_idem.
Qed.

Lemma aiAnalyzeFunction_answers_witness :
  aiAnalyzeFunction "Rate the TOXICITY and the sentiment of this chat" = "[]".
Proof.
  apply (proj1 (aiAnalyzeFunction_answers
                  "Rate the TOXICITY and the sentiment of this chat")).
  left. exists "rate the ", " and the sentiment of this chat". reflexivity.
Defined.

End Heuristic.

Section StreamTitle.

Lemma escapeQuotes_fixed s :
  escapeQuotes s = s ↔ includes s (String dquote EmptyString) = false.
Proof.
  induction s as [|c s IH]; [done|].
  cbn [escapeQuotes includes startsWith].
  destruct (Ascii.eqb dquote c) eqn:Hc.
  - apply Ascii.eqb_eq in Hc as <-. rewrite Ascii.eqb_refl. simpl.
    split; [intros [=]|done].
  - rewrite Ascii.eqb_sym, Hc. simpl. rewrite <- IH.
    split; [by intros [= ->]|by intros ->].
Qed.

(** A call whose body serializes makes exactly one request. *)
Lemma makeTwitchApiCall_sends config endpoint method body payload :
  payloadOf body payload →
  transforms (makeTwitchApiCall config endpoint method body)
    (record (EFetch (apiRequest config endpoint method payload))).
Proof.
  intros Hpayload env st. rewrite (makeTwitchApiCall_run _ _ _ _ _ _ _ Hpayload).
  revert env st. apply transforms_tryCatch.
  - apply transforms_bind; [apply transforms_fetch|]. intros response. unchanged_steps.
  - intros error. unchanged_steps.
Qed.

(** Property X27.  [updateStreamTitle] sends one PATCH to /channels whose
    body carries the title with a backslash put in front of every double
    quote, before [JSON.stringify] escapes it once more; when the API
    accepts it the tool reports success with the title as typed. The title
    sent is the title typed exactly when the title has no double quote. *)
Theorem updateStreamTitle_sends_escaped_title config title env st :
  let sentTitle := escapeQuotes title in
  let request :=
    apiRequest config "/channels" PATCH
      (Some (jsonText (JObj [("broadcaster_id", JStr (twitchBroadcasterId config));
                             ("title", JStr sentTitle)]))) in
  (tool_updateStreamTitle config title env st).2 = record (EFetch request) st
  ∧ (∀ response, fetchAnswer env (performed st) request = Returned response →
       status response = 204 →
       (tool_updateStreamTitle config title env st).1
       = Returned ("Successfully updated stream title to: " +:+ title))
  ∧ (sentTitle = title ↔ ¬ occursIn (String dquote EmptyString) title).
Proof.
  intros sentTitle request.
  set (patch := JObj [("broadcaster_id", JStr (twitchBroadcasterId config));
                      ("title", JStr sentTitle)]).
  assert (payloadOf (Some patch) (Some (jsonText patch))) as Hpayload by reflexivity.
  split_and!.
  - revert env st. unfold tool_updateStreamTitle. fold sentTitle patch.
    apply transforms_tryCatch.
    + apply transforms_bind; [|intros ?; apply transforms_ret].
      apply (makeTwitchApiCall_sends _ _ _ _ _ Hpayload).
    + intros error. unfold replyWithError. unchanged_steps.
  - intros response Hanswer H204.
    unfold tool_updateStreamTitle. fold sentTitle patch.
    rewrite run_tryCatch, run_bind.
    rewrite (makeTwitchApiCall_run _ _ _ _ _ _ _ Hpayload).
    rewrite run_tryCatch, run_bind. unfold fetch. subst request patch.
    rewrite Hanswer. unfold ok. rewrite H204. reflexivity.
  - unfold sentTitle. rewrite escapeQuotes_fixed, <- includes_spec.
    by destruct (includes title _).
Qed.

Lemma updateStreamTitle_sends_escaped_title_witness :
  (tool_updateStreamTitle sampleConfig (String dquote "GG" +:+ String dquote " night")
     cooperative emptyState).2
  = record (EFetch (apiRequest sampleConfig "/channels" PATCH
                      (Some ("{" +:+ quoteJSON "broadcaster_id" +:+ ":"
                             +:+ quoteJSON "123" +:+ ","
                             +:+ quoteJSON "title" +:+ ":"
                             +:+ quoteJSON (String "\"%char (String dquote "GG")
                                            +:+ String "\"%char (String dquote " night"))
                             +:+ "}")))) emptyState.
Proof.
  apply (proj1 (updateStreamTitle_sends_escaped_title sampleConfig
                  (String dquote "GG" +:+ String dquote " night")
                  cooperative emptyState)).
Defined.

End StreamTitle.
